(** * enterprise.signals.parameter: hierarchical parameters and priors

    A shallow embedding of [enterprise/signals/parameter.py].

    Conventions of the embedding.
    - Python objects that take part in the parameter graph (Parameter
      classes and instances, ConstantParameter classes and instances,
      Function classes and instances) are constructors of [PyObj]; every
      other value is a literal [lit].
    - Numbers are rationals; the transcendental functions of numpy and the
      distribution library are fields of the environment [Env].
      Arithmetic is exact: rounding is not modelled.  Where floating point
      leaves the finite numbers the model stops: a power [10**x] out of
      the double range is an OverflowError (or the error the environment
      reports for it), and an inf or nan that numpy would return from the
      quotient of [LinearExpPrior] is reported as [NotFinite].  Operands
      other than scalars and vectors are not interpreted (the model
      answers TypeError).
    - The flat name -> value mapping ([params]) and the keyword set of a call
      are finite maps ([gmap string PyObj]); dictionaries whose iteration
      order the code observes ([func_kwargs], [_params]) are insertion
      ordered association lists, as the dictionaries of Python 3.7 and
      later are.
    - A call [f(a.., params=p, func=g, k=v..)] is written with [p] and
      [g] as separate optional arguments, since [__call__] pops exactly
      these two keys before looking at anything else.
    - Instances are values: [add_kwarg], the one method that mutates an
      instance after its construction, returns the instance it leaves
      behind.  The [__repr__] machinery is left out.
    - Effects: exceptions and the ambient random source are threaded by the
      monad [M]. *)

From Stdlib Require Import QArith Qround Qabs ZArith String List Lia.
From stdpp Require Import gmap strings list fin_maps.

Open Scope string_scope.

(** ** Literals, exceptions, callables *)

Inductive lit : Type :=
| LNone
| LNum (x : Q)
| LVec (xs : list Q)
| LMat (rows : list (list Q))
| LStr (s : string)
| LOther (id : nat).

Inductive exc : Type :=
| AttributeError (msg : string)
| ValueError (msg : string)
| KeyError (key : string)
| TypeError (msg : string)
| RecursionError
| OverflowError
| NotFinite
| LibraryError (code : nat).

Inductive result (A : Type) : Type :=
| Ok (a : A)
| Raise (e : exc).
Arguments Ok {A} a.
Arguments Raise {A} e.

(** The callables of the module, and [PyFunc id] for any other callable. *)
Inductive Callable : Type :=
| FUniformPrior
| FUniformSampler
| FNormalPrior
| FNormalSampler
| FLinearExpPrior
| FLinearExpSampler
| PyFunc (id : nat).

(** ** The object universe *)

(** [const_value = None] is the base class [ConstantParameter] itself, whose
    [value] is the property; [Some val] is a class made by [Constant(val)],
    whose class attribute [value = val] shadows the property. *)
Record ConstantClass : Type := mkConstantClass { const_value : option lit }.

(** [c_dict] is the entry [value] of the instance's own [__dict__], if any. *)
Record ConstantParameter : Type := mkConstantParameter {
  c_name : string;
  c_class : ConstantClass;
  c_dict : option lit
}.

#[warnings="-register-all"]
Inductive PyObj : Type :=
| OLit (l : lit)
| OParameterClass (cls : ParameterClass)
| OConstantClass (cls : ConstantClass)
| OFunctionClass (cls : FunctionClass)
| OParameter (p : ParameterInst)
| OConstant (c : ConstantParameter)
| OFunction (f : FunctionInst)
with ParameterClass : Type :=
| mkParameterClass (_size : option nat) (_prior : FunctionClass)
                   (_sampler : option Callable)
with FunctionClass : Type :=
| mkFunctionClass (func : Callable) (fname : string)
                  (func_kwargs : list (string * PyObj))
with ParameterInst : Type :=
| mkParameter (name : string) (prior : FunctionInst) (cls : ParameterClass)
with FunctionInst : Type :=
| mkFunction (_func : Callable) (_psr : lit)
             (_params : list (string * SubParam))
             (_defaults : list (string * PyObj))
             (_funcs : list (string * FunctionInst))
             (name : string)
             (func_kwargs : list (string * PyObj))
with SubParam : Type :=
| SPar (p : ParameterInst)
| SConst (c : ConstantParameter).

Definition p_size (c : ParameterClass) : option nat :=
  match c with mkParameterClass s _ _ => s end.
Definition p_prior (c : ParameterClass) : FunctionClass :=
  match c with mkParameterClass _ f _ => f end.
Definition p_sampler (c : ParameterClass) : option Callable :=
  match c with mkParameterClass _ _ s => s end.

Definition fc_func (c : FunctionClass) : Callable :=
  match c with mkFunctionClass f _ _ => f end.
Definition fc_fname (c : FunctionClass) : string :=
  match c with mkFunctionClass _ n _ => n end.
Definition fc_func_kwargs (c : FunctionClass) : list (string * PyObj) :=
  match c with mkFunctionClass _ _ kw => kw end.

Definition par_name (p : ParameterInst) : string :=
  match p with mkParameter n _ _ => n end.
Definition par_prior (p : ParameterInst) : FunctionInst :=
  match p with mkParameter _ f _ => f end.
Definition par_class (p : ParameterInst) : ParameterClass :=
  match p with mkParameter _ _ c => c end.

Definition f_func (f : FunctionInst) : Callable :=
  match f with mkFunction fn _ _ _ _ _ _ => fn end.
Definition f_psr (f : FunctionInst) : lit :=
  match f with mkFunction _ psr _ _ _ _ _ => psr end.
Definition f_params (f : FunctionInst) : list (string * SubParam) :=
  match f with mkFunction _ _ ps _ _ _ _ => ps end.
Definition f_defaults (f : FunctionInst) : list (string * PyObj) :=
  match f with mkFunction _ _ _ ds _ _ _ => ds end.
Definition f_funcs (f : FunctionInst) : list (string * FunctionInst) :=
  match f with mkFunction _ _ _ _ fs _ _ => fs end.
Definition f_name (f : FunctionInst) : string :=
  match f with mkFunction _ _ _ _ _ n _ => n end.
Definition f_func_kwargs (f : FunctionInst) : list (string * PyObj) :=
  match f with mkFunction _ _ _ _ _ _ kw => kw end.

Definition sub_name (s : SubParam) : string :=
  match s with SPar p => par_name p | SConst c => c_name c end.

(** [isinstance(par, ConstantParameter)] *)
Definition is_constant (s : SubParam) : bool :=
  match s with SConst _ => true | SPar _ => false end.

(** ** Insertion-ordered dictionaries *)

Module Dict.
Section Dict.
Context {V : Type}.

Fixpoint get (k : string) (d : list (string * V)) : option V :=
  match d with
  | [] => None
  | (k', v) :: d' => if String.eqb k k' then Some v else get k d'
  end.

Definition mem (k : string) (d : list (string * V)) : bool :=
  match get k d with Some _ => true | None => false end.

(** [d[k] = v]: an existing key keeps its position. *)
Fixpoint set (k : string) (v : V) (d : list (string * V)) : list (string * V) :=
  match d with
  | [] => [(k, v)]
  | (k', v') :: d' =>
      if String.eqb k k' then (k, v) :: d' else (k', v') :: set k v d'
  end.

(** [d.update(other)] *)
Definition update (d other : list (string * V)) : list (string * V) :=
  fold_left (fun acc kv => set (fst kv) (snd kv) acc) other d.

Fixpoint remove (k : string) (d : list (string * V)) : list (string * V) :=
  match d with
  | [] => []
  | (k', v) :: d' =>
      if String.eqb k k' then remove k d' else (k', v) :: remove k d'
  end.

Definition keys (d : list (string * V)) : list string := map fst d.
Definition values (d : list (string * V)) : list V := map snd d.
End Dict.
End Dict.

(** ** Environment: what lives outside the module *)

Class Env : Type := {
  (** the ambient state: the random source of the samplers *)
  World : Type;
  (** behaviour and signature of the callables that are not defined here;
      the signature is (argument names, number of trailing defaults), as
      [inspect.getargspec] reports it *)
  py_call : nat -> list PyObj -> gmap string PyObj -> World -> result PyObj * World;
  py_argspec : nat -> list string * nat;
  (** numpy *)
  np_log_num : Q -> Q;
  np_log10_num : Q -> Q;
  (** [10 ** x] in floating point: the power, or the error raised when
      it is out of range *)
  pow10 : Q -> result Q;
  np_random_uniform : PyObj -> PyObj -> PyObj -> World -> result PyObj * World;
  (** scipy.stats *)
  uniform_pdf : PyObj -> PyObj -> PyObj -> result PyObj;
  uniform_rvs : PyObj -> PyObj -> PyObj -> World -> result PyObj * World;
  multivariate_normal_pdf : PyObj -> PyObj -> PyObj -> result PyObj;
  multivariate_normal_rvs : PyObj -> PyObj -> PyObj -> World -> result PyObj * World;
  (** the interpreter's bound on the depth of the call stack, and the
      number of nested calls of [sample] that fit under it *)
  recursion_limit : nat;
  nesting_limit : nat
}.

(** ** The exception and state monad *)

Section Model.
Context {E : Env}.

Definition M (A : Type) : Type := World -> result A * World.

Definition ret {A} (a : A) : M A := fun w => (Ok a, w).
Definition raise {A} (e : exc) : M A := fun w => (Raise e, w).
Definition lift {A} (r : result A) : M A := fun w => (r, w).
Definition bind {A B} (m : M A) (k : A -> M B) : M B :=
  fun w => match m w with
           | (Ok a, w') => k a w'
           | (Raise e, w') => (Raise e, w')
           end.

Definition rbind {A B} (r : result A) (k : A -> result B) : result B :=
  match r with Ok a => k a | Raise e => Raise e end.

Notation "x <- m ;; k" := (bind m (fun x => k))
  (at level 100, m at next level, right associativity).
Notation "x <-? r ;; k" := (rbind r (fun x => k))
  (at level 100, r at next level, right associativity).

(** ** numpy on scalars and vectors *)

Inductive arr (A : Type) : Type :=
| Sc (a : A)
| Ar (l : list A).
Arguments Sc {A} a.
Arguments Ar {A} l.

Definition to_arr (o : PyObj) : result (arr Q) :=
  match o with
  | OLit (LNum x) => Ok (Sc x)
  | OLit (LVec l) => Ok (Ar l)
  | _ => Raise (TypeError "unsupported operand type")
  end.

Definition of_arr (a : arr Q) : PyObj :=
  match a with Sc x => OLit (LNum x) | Ar l => OLit (LVec l) end.

Definition arr_map {A B} (f : A -> B) (a : arr A) : arr B :=
  match a with Sc x => Sc (f x) | Ar l => Ar (map f l) end.

Fixpoint zip_map {A B C} (f : A -> B -> C) (l1 : list A) (l2 : list B) : list C :=
  match l1, l2 with
  | x :: l1', y :: l2' => f x y :: zip_map f l1' l2'
  | _, _ => []
  end.

(** Elementwise binary operation with numpy's broadcasting: a scalar or a
    one-element vector stretches over the other operand; otherwise the
    lengths must agree. *)
Definition arr_map2 {A B C} (f : A -> B -> C) (a : arr A) (b : arr B)
  : result (arr C) :=
  match a, b with
  | Sc x, Sc y => Ok (Sc (f x y))
  | Sc x, Ar l => Ok (Ar (map (f x) l))
  | Ar l, Sc y => Ok (Ar (map (fun x => f x y) l))
  | Ar [x], Ar l => Ok (Ar (map (f x) l))
  | Ar l, Ar [y] => Ok (Ar (map (fun x => f x y) l))
  | Ar l1, Ar l2 =>
      if Nat.eqb (length l1) (length l2) then Ok (Ar (zip_map f l1 l2))
      else Raise (ValueError "operands could not be broadcast together")
  end.

(** Elementwise application of an operation that can fail; the first
    failure is the outcome. *)
Fixpoint mapr {A B} (f : A -> result B) (l : list A) : result (list B) :=
  match l with
  | [] => Ok []
  | x :: l' => y <-? f x ;; ys <-? mapr f l' ;; Ok (y :: ys)
  end.

Definition arr_mapr {A B} (f : A -> result B) (a : arr A) : result (arr B) :=
  match a with
  | Sc x => y <-? f x ;; Ok (Sc y)
  | Ar l => ys <-? mapr f l ;; Ok (Ar ys)
  end.

Definition arr_all {A} (f : A -> bool) (a : arr A) : bool :=
  match a with Sc x => f x | Ar l => forallb f l end.

(** [np.any] *)
Definition np_any (a : arr bool) : bool :=
  match a with Sc b => b | Ar l => existsb (fun b => b) l end.

Definition qadd (x y : Q) : Q := Qred (x + y).
Definition qsub (x y : Q) : Q := Qred (x - y).
Definition qmul (x y : Q) : Q := Qred (x * y).
Definition qdiv (x y : Q) : Q := Qred (x / y).
Definition qge (x y : Q) : bool := Qle_bool y x.
Definition qle (x y : Q) : bool := Qle_bool x y.
Definition of_bool (b : bool) : Q := if b then 1%Q else 0%Q.

(** The largest double, and the numbers within its range. *)
Definition float_max : Q := inject_Z (2 ^ 1024 - 2 ^ 971).
Definition is_finite (x : Q) : bool := Qle_bool (Qabs x) float_max.

(** [10 ** x] as the formulas of LinearExp use it: the power the
    environment gives, when it is a number of the double range.  A power
    beyond it raises OverflowError, at once for a float, and as soon as
    numpy takes it as an operand for an int. *)
Definition power_of_ten (x : Q) : result Q :=
  p <-? pow10 x ;;
  if is_finite p then Ok p else Raise OverflowError.

(** numpy's quotient [num / den].  Operands that do not broadcast raise.
    Where the quotient is no finite number (a zero divisor, a dividend or
    a quotient beyond the double range) numpy returns inf or nan with a
    warning; the model answers [NotFinite]. *)
Definition np_divide (num den : arr Q) : result (arr Q) :=
  r <-? arr_map2 qdiv num den ;;
  if arr_all is_finite num
     && arr_all (fun d => negb (Qeq_bool d 0)) den
     && arr_all is_finite r
  then Ok r
  else Raise NotFinite.

(** [np.log], [np.sum], [np.prod] on the value a prior returns *)
Definition np_log (o : PyObj) : result PyObj :=
  a <-? to_arr o ;; Ok (of_arr (arr_map np_log_num a)).

Definition np_sum (o : PyObj) : result PyObj :=
  a <-? to_arr o ;;
  Ok (OLit (LNum (match a with
                  | Sc x => x
                  | Ar l => fold_left qadd l 0%Q
                  end))).

Definition np_prod (o : PyObj) : result PyObj :=
  a <-? to_arr o ;;
  Ok (OLit (LNum (match a with
                  | Sc x => x
                  | Ar l => fold_left qmul l 1%Q
                  end))).

(** [np.ndim] *)
Definition np_ndim (o : PyObj) : nat :=
  match o with
  | OLit (LVec _) => 1
  | OLit (LMat _) => 2
  | _ => 0
  end.

Definition py_sub (a b : PyObj) : result PyObj :=
  x <-? to_arr a ;; y <-? to_arr b ;; r <-? arr_map2 qsub x y ;; Ok (of_arr r).

Definition py_square (a : PyObj) : result PyObj :=
  x <-? to_arr a ;; Ok (of_arr (arr_map (fun v => qmul v v) x)).

(** ** The prior library *)

Definition UniformPrior (value pmin pmax : PyObj) : M PyObj :=
  scale <- lift (py_sub pmax pmin) ;;
  lift (uniform_pdf value pmin scale).

Definition UniformSampler (pmin pmax size : PyObj) : M PyObj :=
  scale <- lift (py_sub pmax pmin) ;;
  uniform_rvs pmin scale size.

Definition NormalPrior (value mu sigma : PyObj) : M PyObj :=
  cov <- lift (if Nat.eqb (np_ndim sigma) 2 then Ok sigma else py_square sigma) ;;
  lift (multivariate_normal_pdf value mu cov).

(** [len(mu) != size] for a vector [mu] *)
Definition len_differs (n : nat) (size : PyObj) : bool :=
  match size with
  | OLit (LNum s) => negb (Qeq_bool (inject_Z (Z.of_nat n)) s)
  | _ => true
  end.

Definition NormalSampler (mu sigma size : PyObj) : M PyObj :=
  match mu with
  | OLit (LVec l) =>
      if len_differs (length l) size then
        raise (ValueError
          "Size mismatch between Parameter size and distribution arguments")
      else
        cov <- lift (if Nat.eqb (np_ndim sigma) 2 then Ok sigma
                     else py_square sigma) ;;
        multivariate_normal_rvs mu cov (OLit LNone)
  | _ =>
      cov <- lift (if Nat.eqb (np_ndim sigma) 2 then Ok sigma
                   else py_square sigma) ;;
      multivariate_normal_rvs mu cov size
  end.

Definition LinearExp_msg : string := "LinearExp Parameter requires pmin < pmax.".

(** [np.any(pmin >= pmax)] *)
Definition any_ge (pmin pmax : PyObj) : result bool :=
  a <-? to_arr pmin ;; b <-? to_arr pmax ;;
  c <-? arr_map2 qge a b ;; Ok (np_any c).

(** [LinearExpPrior].  The operands of the formula are evaluated from left
    to right: the mask, its product with [np.log(10)], the power of the
    value and the product with it, the powers of [pmax] and of [pmin] and
    their difference, the quotient.  The mask guards none of the powers. *)
Definition LinearExpPrior (value pmin pmax : PyObj) : M PyObj :=
  bad <- lift (any_ge pmin pmax) ;;
  if (bad : bool) then raise (ValueError LinearExp_msg)
  else lift (
    lo <-? to_arr pmin ;; hi <-? to_arr pmax ;; v <-? to_arr value ;;
    m1 <-? arr_map2 qle lo v ;;
    m2 <-? arr_map2 qle v hi ;;
    inside <-? arr_map2 andb m1 m2 ;;
    let t1 := arr_map (fun b => qmul (of_bool b) (np_log_num 10)) inside in
    pv <-? arr_mapr power_of_ten v ;;
    t2 <-? arr_map2 qmul t1 pv ;;
    phi <-? arr_mapr power_of_ten hi ;;
    plo <-? arr_mapr power_of_ten lo ;;
    den <-? arr_map2 qsub phi plo ;;
    r <-? np_divide t2 den ;;
    Ok (of_arr r)).

(** [np.log10(np.random.uniform(10**pmin, 10**pmax, size))] *)
Definition LinearExpSampler (pmin pmax size : PyObj) : M PyObj :=
  bad <- lift (any_ge pmin pmax) ;;
  if (bad : bool) then raise (ValueError LinearExp_msg)
  else
    lo <- lift (to_arr pmin) ;; hi <- lift (to_arr pmax) ;;
    plo <- lift (arr_mapr power_of_ten lo) ;;
    phi <- lift (arr_mapr power_of_ten hi) ;;
    u <- np_random_uniform (of_arr plo) (of_arr phi) size ;;
    lift (a <-? to_arr u ;; Ok (of_arr (arr_map np_log10_num a))).

(** ** Calling a Python callable *)

(** Binding of positional and keyword arguments to a signature given as
    parameter names with optional defaults. *)
Fixpoint bind_args (sig : list (string * option PyObj)) (args : list PyObj)
    (kwargs : gmap string PyObj) : result (list PyObj) :=
  match sig with
  | [] =>
      match args with
      | [] => if Nat.eqb (size kwargs) 0 then Ok []
              else Raise (TypeError "unexpected keyword argument")
      | _ :: _ => Raise (TypeError "too many positional arguments")
      end
  | (n, d) :: sig' =>
      match args with
      | a :: args' =>
          match kwargs !! n with
          | Some _ => Raise (TypeError "multiple values for argument")
          | None => vs <-? bind_args sig' args' kwargs ;; Ok (a :: vs)
          end
      | [] =>
          match kwargs !! n, d with
          | Some v, _ => vs <-? bind_args sig' [] (delete n kwargs) ;; Ok (v :: vs)
          | None, Some v => vs <-? bind_args sig' [] kwargs ;; Ok (v :: vs)
          | None, None => Raise (TypeError "missing required argument")
          end
      end
  end.

Definition signature (c : Callable) : list (string * option PyObj) :=
  match c with
  | FUniformPrior | FLinearExpPrior =>
      [("value", None); ("pmin", None); ("pmax", None)]
  | FUniformSampler =>
      [("pmin", None); ("pmax", None); ("size", Some (OLit LNone))]
  | FNormalPrior => [("value", None); ("mu", None); ("sigma", None)]
  | FNormalSampler =>
      [("mu", None); ("sigma", None); ("size", Some (OLit LNone))]
  | FLinearExpSampler => [("pmin", None); ("pmax", None); ("size", None)]
  | PyFunc _ => []
  end.

Definition apply3 (f : PyObj -> PyObj -> PyObj -> M PyObj) (vs : list PyObj)
  : M PyObj :=
  match vs with
  | [a; b; c] => f a b c
  | _ => raise (TypeError "arity")
  end.

Definition run_callable (c : Callable) (args : list PyObj)
    (kwargs : gmap string PyObj) : M PyObj :=
  match c with
  | PyFunc id => py_call id args kwargs
  | _ =>
      vs <- lift (bind_args (signature c) args kwargs) ;;
      apply3 (match c with
              | FUniformPrior => UniformPrior
              | FUniformSampler => UniformSampler
              | FNormalPrior => NormalPrior
              | FNormalSampler => NormalSampler
              | FLinearExpPrior => LinearExpPrior
              | _ => LinearExpSampler
              end) vs
  end.

(** ** Class factories *)

(** Modelled from the spec: [selection_func] of
    [enterprise.signals.selections], the masking wrapper put around the
    wrapped callable, which the spec treats as a pass-through. *)
Definition selection_func (func : Callable) : Callable := func.

(** [Function(func, name='', **func_kwargs)].  The keywords are the slots
    of the class; Python's call syntax keeps [func] and [name] out of
    them. *)
Definition Function (func : Callable) (name : string)
    (func_kwargs : list (string * PyObj)) : FunctionClass :=
  mkFunctionClass func name func_kwargs.

Definition UserParameter (prior : FunctionClass) (sampler : option Callable)
    (size : option nat) : ParameterClass :=
  mkParameterClass size prior sampler.

Definition Uniform (pmin pmax : PyObj) (size : option nat) : ParameterClass :=
  mkParameterClass size
    (Function FUniformPrior "" [("pmin", pmin); ("pmax", pmax)])
    (Some FUniformSampler).

(** [Normal(mu=0, sigma=1, size=None)], the defaults written at the call *)
Definition Normal (mu sigma : PyObj) (size : option nat) : ParameterClass :=
  mkParameterClass size
    (Function FNormalPrior "" [("mu", mu); ("sigma", sigma)])
    (Some FNormalSampler).

Definition LinearExp (pmin pmax : PyObj) (size : option nat) : ParameterClass :=
  mkParameterClass size
    (Function FLinearExpPrior "" [("pmin", pmin); ("pmax", pmax)])
    (Some FLinearExpSampler).

(** The class [ConstantParameter] itself, and [Constant(val)]. *)
Definition ConstantParameter_class : ConstantClass := mkConstantClass None.
Definition Constant (val : lit) : ConstantClass := mkConstantClass (Some val).

(** [ConstantParameter.__init__] *)
Definition ConstantParameter_init (cls : ConstantClass) (name : string)
  : ConstantParameter :=
  mkConstantParameter name cls None.

(** ** Instantiation *)

(** ['_'.join([n for n in parts if n])] *)
Definition join_names (parts : list string) : string :=
  String.concat "_" (List.filter (fun n => negb (String.eqb n "")) parts).

(** The three maps [_params], [_defaults], [_funcs] while [__init__] fills
    them. *)
Record slots : Type := mkSlots {
  s_params : list (string * SubParam);
  s_defaults : list (string * PyObj);
  s_funcs : list (string * FunctionInst)
}.

Definition set_param (kw : string) (par : SubParam) (st : slots) : slots :=
  mkSlots (Dict.set kw par (s_params st)) (s_defaults st) (s_funcs st).

Definition set_default (kw : string) (arg : PyObj) (st : slots) : slots :=
  mkSlots (s_params st) (Dict.set kw arg (s_defaults st)) (s_funcs st).

(** [self._funcs[kw] = f; self._params.update(f._params)] *)
Definition set_func (kw : string) (f : FunctionInst) (st : slots) : slots :=
  mkSlots (Dict.update (s_params st) (f_params f)) (s_defaults st)
          (Dict.set kw f (s_funcs st)).

(** [Function.__init__(self, name, psr)] and [Parameter.__init__(self, name)];
    the latter instantiates the prior with [psr=None]. *)
Fixpoint Function_init (cls : FunctionClass) (name : string) (psr : lit)
    {struct cls} : FunctionInst :=
  match cls with
  | mkFunctionClass func fname func_kwargs =>
      let st :=
        (fix loop (l : list (string * PyObj)) (st : slots) {struct l} : slots :=
           match l with
           | [] => st
           | (kw, arg) :: l' =>
               let pname := join_names [name; fname; kw] in
               loop l'
                 match arg with
                 | OParameterClass pc =>
                     set_param kw (SPar (Parameter_init pc pname)) st
                 | OConstantClass cc =>
                     set_param kw (SConst (ConstantParameter_init cc pname)) st
                 | OParameter p => set_param kw (SPar p) st
                 | OConstant c => set_param kw (SConst c) st
                 | OFunctionClass fc =>
                     set_func kw (Function_init fc pname psr) st
                 | OFunction f => set_func kw f st
                 | OLit _ => set_default kw arg st
                 end
           end) func_kwargs (mkSlots [] [] []) in
      mkFunction (selection_func func) psr
                 (s_params st) (s_defaults st) (s_funcs st)
                 (join_names [name; fname]) func_kwargs
  end
with Parameter_init (cls : ParameterClass) (name : string) {struct cls}
  : ParameterInst :=
  match cls with
  | mkParameterClass _ prior _ =>
      mkParameter name (Function_init prior name LNone) cls
  end.

(** One turn of the loop of [Function.__init__]. *)
Definition classify (name fname : string) (psr : lit) (st : slots)
    (slot : string * PyObj) : slots :=
  let kw := fst slot in
  let pname := join_names [name; fname; kw] in
  match snd slot with
  | OParameterClass pc => set_param kw (SPar (Parameter_init pc pname)) st
  | OConstantClass cc =>
      set_param kw (SConst (ConstantParameter_init cc pname)) st
  | OParameter p => set_param kw (SPar p) st
  | OConstant c => set_param kw (SConst c) st
  | OFunctionClass fc => set_func kw (Function_init fc pname psr) st
  | OFunction f => set_func kw f st
  | OLit _ => set_default kw (snd slot) st
  end.

(** [Parameter.__call__(self, name)] and [ConstantParameter.__call__]: the
    instance refuses to be renamed. *)
Definition Parameter_call (self : ParameterInst) (name : string)
  : ParameterInst := self.

Definition ConstantParameter_call (self : ConstantParameter) (name : string)
  : ConstantParameter := self.

(** ** The attribute [value] of a ConstantParameter *)

(** Reading [c.value] with [depth] frames left on the stack.  On a class
    made by [Constant(val)] the lookup finds the instance's own entry or
    the class attribute.  On the base class it finds the property, whose
    getter is [return self.value]: one more frame, the same lookup. *)
Fixpoint get_value (depth : nat) (c : ConstantParameter) : result lit :=
  match const_value (c_class c) with
  | Some val => Ok (match c_dict c with Some v => v | None => val end)
  | None =>
      match depth with
      | O => Raise RecursionError
      | S d => get_value d c
      end
  end.

(** Writing [c.value = v]: the property setter is [self.value = value]. *)
Fixpoint set_value (depth : nat) (c : ConstantParameter) (v : lit)
  : result ConstantParameter :=
  match const_value (c_class c) with
  | Some _ => Ok (mkConstantParameter (c_name c) (c_class c) (Some v))
  | None =>
      match depth with
      | O => Raise RecursionError
      | S d => set_value d c v
      end
  end.

(** The same read as a machine: [Lookup n] is the lookup of [value] under
    [n] frames of the getter, [Found v] its result. *)
Inductive access : Type :=
| Lookup (frames : nat)
| Found (v : lit).

Definition value_step (c : ConstantParameter) (s : access) : access :=
  match s with
  | Lookup n =>
      match const_value (c_class c) with
      | Some val => Found (match c_dict c with Some v => v | None => val end)
      | None => Lookup (S n)
      end
  | Found v => Found v
  end.

(** ** Function.__call__ *)

Definition allow_list : list string := ["psr"; "mask"; "size"].

(** What the loop of [__call__] knows of a sub-function: the keys it
    declares and its evaluation on a keyword set. *)
Definition sub_eval : Type := list string * (gmap string PyObj -> M PyObj).

(** The body of [for kw, arg in func_kwargs.items()] for one [kw]. *)
Definition resolve_slot (_params : list (string * SubParam))
    (_defaults : list (string * PyObj)) (_funcs : list (string * sub_eval))
    (params : gmap string PyObj) (kw : string) (kwargs : gmap string PyObj)
  : M (gmap string PyObj) :=
  match kwargs !! kw with
  | Some _ => ret kwargs
  | None =>
      match Dict.get kw _params with
      | Some par =>
          match params !! sub_name par with
          | Some v => ret (<[kw := v]> kwargs)
          | None =>
              (* hasattr(par, 'value') *)
              match par with
              | SConst c =>
                  v <- lift (get_value recursion_limit c) ;;
                  ret (<[kw := OLit v]> kwargs)
              | SPar _ => ret kwargs
              end
          end
      | None =>
          match Dict.get kw _defaults with
          | Some d => ret (<[kw := d]> kwargs)
          | None =>
              match Dict.get kw _funcs with
              | Some (declared, f) =>
                  let fargs :=
                    filter (fun kv => kv.1 ∈ declared) kwargs in
                  v <- f (delete "params" fargs) ;;
                  ret (<[kw := v]> kwargs)
              | None => ret kwargs
              end
          end
      end
  end.

Fixpoint resolve_loop (_params : list (string * SubParam))
    (_defaults : list (string * PyObj)) (_funcs : list (string * sub_eval))
    (params : gmap string PyObj) (kws : list string)
    (kwargs : gmap string PyObj) : M (gmap string PyObj) :=
  match kws with
  | [] => ret kwargs
  | kw :: kws' =>
      kwargs' <- resolve_slot _params _defaults _funcs params kw kwargs ;;
      resolve_loop _params _defaults _funcs params kws' kwargs'
  end.

(** [if self._psr is not None and 'psr' not in kwargs: kwargs['psr'] = ...] *)
Definition pass_psr (psr : lit) (kwargs : gmap string PyObj)
  : gmap string PyObj :=
  match psr, kwargs !! "psr" with
  | LNone, _ => kwargs
  | _, Some _ => kwargs
  | _, None => <["psr" := OLit psr]> kwargs
  end.

(** The clean-up before the call of [func]. *)
Definition clean_up (func_kwargs : list (string * PyObj))
    (kwargs : gmap string PyObj) : gmap string PyObj :=
  filter (fun kv => kv.1 ∈ Dict.keys func_kwargs \/ kv.1 ∈ allow_list) kwargs.

Fixpoint Function_call (self : FunctionInst) (args : list PyObj)
    (params : gmap string PyObj) (func : option Callable)
    (kwargs : gmap string PyObj) {struct self} : M PyObj :=
  match self with
  | mkFunction _func _psr _params _defaults _funcs _ func_kwargs =>
      let fn := match func with Some f => f | None => _func end in
      let subs :=
        (fix evals (l : list (string * FunctionInst)) : list (string * sub_eval) :=
           match l with
           | [] => []
           | (k, f) :: l' =>
               (k, (Dict.keys (f_func_kwargs f),
                    Function_call f [] params None)) :: evals l'
           end) _funcs in
      kwargs1 <- resolve_loop _params _defaults subs params
                   (Dict.keys func_kwargs) kwargs ;;
      run_callable fn args (clean_up func_kwargs (pass_psr _psr kwargs1))
  end.

(** [Function.add_kwarg(self, **kwargs)]: [self._defaults.update(kwargs)] *)
Definition add_kwarg (self : FunctionInst) (kwargs : list (string * PyObj))
  : FunctionInst :=
  match self with
  | mkFunction _func _psr _params _defaults _funcs name func_kwargs =>
      mkFunction _func _psr _params (Dict.update _defaults kwargs) _funcs
                 name func_kwargs
  end.

(** ** Parameter *)

(** [value = kwargs['params'][self.name]] when [value is None] and a
    [params] mapping was passed. *)
Definition resolve_value (self : ParameterInst) (value : PyObj)
    (params : option (gmap string PyObj)) : result PyObj :=
  match value, params with
  | OLit LNone, Some ps =>
      match ps !! par_name self with
      | Some v => Ok v
      | None => Raise (KeyError (par_name self))
      end
  | _, _ => Ok value
  end.

Definition params_or_empty (params : option (gmap string PyObj))
  : gmap string PyObj :=
  match params with Some ps => ps | None => ∅ end.

(** [self.prior(value, **kwargs)] *)
Definition prior_at (self : ParameterInst) (value : PyObj)
    (params : option (gmap string PyObj)) (kwargs : gmap string PyObj)
  : M PyObj :=
  Function_call (par_prior self) [value] (params_or_empty params) None kwargs.

Definition get_logpdf (self : ParameterInst) (value : PyObj)
    (params : option (gmap string PyObj)) (kwargs : gmap string PyObj)
  : M PyObj :=
  value <- lift (resolve_value self value params) ;;
  density <- prior_at self value params kwargs ;;
  logpdf <- lift (np_log density) ;;
  match p_size (par_class self) with
  | None => ret logpdf
  | Some _ => lift (np_sum logpdf)
  end.

Definition get_pdf (self : ParameterInst) (value : PyObj)
    (params : option (gmap string PyObj)) (kwargs : gmap string PyObj)
  : M PyObj :=
  value <- lift (resolve_value self value params) ;;
  pdf <- prior_at self value params kwargs ;;
  match p_size (par_class self) with
  | None => ret pdf
  | Some _ => lift (np_prod pdf)
  end.

Definition size_obj (size : option nat) : PyObj :=
  match size with
  | None => OLit LNone
  | Some n => OLit (LNum (inject_Z (Z.of_nat n)))
  end.

(** [self.name in kwargs], where [kwargs] are the keywords of the call of
    [sample], the keyword [params] among them when it was passed. *)
Definition name_in_kwargs (name : string)
    (params : option (gmap string PyObj)) (kwargs : gmap string PyObj) : bool :=
  match kwargs !! name with
  | Some _ => true
  | None =>
      match params with
      | Some _ => String.eqb name "params"
      | None => false
      end
  end.

Definition no_sampler_msg : string :=
  "No sampler was provided for this Parameter.".
Definition own_value_msg : string :=
  "You shouldn't give me my value when you're sampling me.!".

(** [Parameter.sample(self, **kwargs)] *)
Definition Parameter_sample (self : ParameterInst)
    (params : option (gmap string PyObj)) (kwargs : gmap string PyObj)
  : M PyObj :=
  match p_sampler (par_class self) with
  | None => raise (AttributeError no_sampler_msg)
  | Some sampler =>
      if name_in_kwargs (par_name self) params kwargs then
        raise (ValueError own_value_msg)
      else
        match kwargs !! "size" with
        | Some _ =>
            raise (TypeError "got multiple values for keyword argument 'size'")
        | None =>
            Function_call (par_prior self) [] (params_or_empty params)
              (Some sampler)
              (<["size" := size_obj (p_size (par_class self))]> kwargs)
        end
  end.

(** [Parameter.params] and [Function.params] *)
Fixpoint Parameter_params (p : ParameterInst) : list SubParam :=
  match p with
  | mkParameter _ prior _ =>
      SPar p :: List.filter (fun par => negb (is_constant par))
                            (Function_params prior)
  end
with Function_params (f : FunctionInst) : list SubParam :=
  match f with
  | mkFunction _ _ _params _ _ _ _ =>
      (fix flatten (l : list (string * SubParam)) : list SubParam :=
         match l with
         | [] => []
         | (_, SPar q) :: l' => (Parameter_params q ++ flatten l')%list
         | (_, SConst _) :: l' => flatten l'
         end) _params
  end.

(** ** The sampling driver *)

(** The comparison [par == key] behind [par in parvalues]: the keys of
    [parvalues] are names, and a Parameter, which defines neither [__eq__]
    nor [__hash__], is equal to no string. *)
Definition object_eq_key (par : SubParam) (key : string) : bool := false.

(** [par in parvalues] *)
Definition object_in (par : SubParam) (parvalues : gmap string PyObj) : bool :=
  existsb (object_eq_key par) (map fst (map_to_list parvalues)).

(** [sample(parlist)] with [depth] nested calls of [sample] left; the inner
    loop is [_sample(parlist, parvalues)]. *)
Fixpoint sample_at (depth : nat) (parlist : list SubParam) {struct depth}
  : M (gmap string PyObj) :=
  match depth with
  | O => raise RecursionError
  | S d =>
      (fix _sample (l : list SubParam) (parvalues : gmap string PyObj)
         {struct l} : M (gmap string PyObj) :=
         match l with
         | [] => ret parvalues
         | par :: l' =>
             if negb (object_in par parvalues) then
               match par with
               | SConst _ =>
                   raise (AttributeError "object has no attribute 'params'")
               | SPar p =>
                   hyper <- sample_at d (tail (Parameter_params p)) ;;
                   let parvalues := hyper ∪ parvalues in
                   v <- Parameter_sample p (Some parvalues) ∅ ;;
                   _sample l' (<[par_name p := v]> parvalues)
               end
             else _sample l' parvalues
         end) parlist ∅
  end.

(** [sample(parlist)]; a single Parameter is taken as the list of it. *)
Definition sample (parlist : ParameterInst + list SubParam)
  : M (gmap string PyObj) :=
  sample_at nesting_limit
    match parlist with
    | inl par => [SPar par]
    | inr l => l
    end.

(** ** The decorator [function] *)

Definition argspec (func : Callable) : list string * nat :=
  match func with
  | PyFunc id => py_argspec id
  | _ => (map fst (signature func),
          length (List.filter (fun d => match snd d with
                                        | Some _ => true
                                        | None => false
                                        end) (signature func)))
  end.

Definition get_funcargs (func : Callable) : list string * list string :=
  let (names, ndefaults) := argspec func in
  match ndefaults with
  | O => (names, [])
  | _ => (take (length names - ndefaults) names,
          drop (length names - ndefaults) names)
  end.

(** [isinstance(arg, type) and issubclass(arg, (Parameter, ConstantParameter))
    or isinstance(arg, (Parameter, ConstantParameter)) or ...] *)
Definition is_graph_object (arg : PyObj) : bool :=
  match arg with OLit _ => false | _ => true end.

(** [Function(func, **kwargs)]: a keyword [name] binds the parameter [name]
    of [Function], a keyword [func] collides with the positional argument.
    A [name] that is not a string is outside the model. *)
Definition Function_from (func : Callable) (kwargs : list (string * PyObj))
  : result FunctionClass :=
  if Dict.mem "func" kwargs then
    Raise (TypeError "got multiple values for argument 'func'")
  else
    match Dict.get "name" kwargs with
    | None => Ok (Function func "" kwargs)
    | Some (OLit (LStr n)) => Ok (Function func n (Dict.remove "name" kwargs))
    | Some _ => Raise (TypeError "name is not a string")
    end.

Definition make_Function (func : Callable) (kwargs : list (string * PyObj))
  : M PyObj :=
  cls <- lift (Function_from func kwargs) ;; ret (OFunctionClass cls).

(** The [wrapper] that [function(func)] returns, called with positional
    arguments [args] and keywords [kwargs]. *)
Definition wrapper (func : Callable) (args : list PyObj)
    (kwargs : list (string * PyObj)) : M PyObj :=
  let funcargs := fst (get_funcargs func) in
  let fargs := Dict.update (zip funcargs args) kwargs in
  if negb (forallb (fun fa => Dict.mem fa fargs) funcargs) then
    make_Function func kwargs
  else if existsb (fun kv => is_graph_object (snd kv)) kwargs then
    make_Function func kwargs
  else run_callable func args (list_to_map kwargs).

(** [function(func)] *)
Definition function (func : Callable)
  : list PyObj -> list (string * PyObj) -> M PyObj :=
  wrapper func.

End Model.

Notation "x <- m ;; k" := (bind m (fun x => k))
  (at level 100, m at next level, right associativity).
Notation "x <-? r ;; k" := (rbind r (fun x => k))
  (at level 100, r at next level, right associativity).

(** ** A concrete environment

    A small deterministic world for running the model: the random source is
    the log of the draws made so far, the n-th variate being [1/(n+2)] of
    the way from [loc] to [loc + scale]; the densities are those of the
    uniform distribution; the transcendental functions are rational
    stand-ins that are exact at the points the examples use. *)

Module Toy.

Definition variate (n : nat) : Q := 1 # Pos.of_nat (n + 2).

Definition draw (loc scale : Q) (w : list (Q * Q)) : PyObj * list (Q * Q) :=
  (OLit (LNum (qadd loc (qmul scale (variate (length w))))),
   (w ++ [(loc, scale)])%list).

Definition rvs (loc scale size : PyObj) (w : list (Q * Q))
  : result PyObj * list (Q * Q) :=
  match loc, scale, size with
  | OLit (LNum a), OLit (LNum b), OLit LNone =>
      let (v, w') := draw a b w in (Ok v, w')
  | _, _, _ => (Raise (LibraryError 0), w)
  end.

Definition random_uniform (lo hi size : PyObj) (w : list (Q * Q))
  : result PyObj * list (Q * Q) :=
  match lo, hi, size with
  | OLit (LNum a), OLit (LNum b), OLit LNone =>
      let (v, w') := draw a (qsub b a) w in (Ok v, w')
  | _, _, _ => (Raise (LibraryError 0), w)
  end.

Definition pdf1 (loc scale x : Q) : Q :=
  if qle loc x && qle x (qadd loc scale) then qdiv 1 scale else 0%Q.

Definition pdf (value loc scale : PyObj) : result PyObj :=
  match loc, scale with
  | OLit (LNum a), OLit (LNum b) =>
      if qle b 0 then Raise (LibraryError 1)
      else rbind (to_arr value) (fun v => Ok (of_arr (arr_map (pdf1 a b) v)))
  | _, _ => Raise (LibraryError 1)
  end.

(** [10 ** x], exact at the integers, out of range from 309 on. *)
Definition power10 (x : Q) : result Q :=
  if (308 <? Qfloor x)%Z then Raise OverflowError
  else Ok (Qpower 10 (Qfloor x)).

Definition keyword (k : string) (kwargs : gmap string PyObj) : result PyObj :=
  match kwargs !! k with
  | Some v => Ok v
  | None => Raise (TypeError "missing required argument")
  end.

(** [PyFunc 0] is [def outer(a, g): return g], [PyFunc 1] is
    [def inner(a): return a], [PyFunc 2] is [def ident(x): return x]. *)
Definition call (id : nat) (args : list PyObj) (kwargs : gmap string PyObj)
    (w : list (Q * Q)) : result PyObj * list (Q * Q) :=
  match id, args with
  | 0, [] => (keyword "g" kwargs, w)
  | 1, [] => (keyword "a" kwargs, w)
  | 2, [x] => (Ok x, w)
  | 2, [] => (keyword "x" kwargs, w)
  | _, _ => (Raise (TypeError "bad call"), w)
  end.

Definition spec_of (id : nat) : list string * nat :=
  match id with
  | 0 => (["a"; "g"], 2)
  | 1 => (["a"], 1)
  | 2 => (["x"], 0)
  | _ => ([], 0)
  end.

Definition env : Env := {|
  World := list (Q * Q);
  py_call := call;
  py_argspec := spec_of;
  np_log_num := fun x => qsub x 1;
  np_log10_num := fun x => qsub x 1;
  pow10 := power10;
  np_random_uniform := random_uniform;
  uniform_pdf := pdf;
  uniform_rvs := rvs;
  multivariate_normal_pdf := fun _ _ _ => Raise (LibraryError 2);
  multivariate_normal_rvs := fun _ _ _ w => (Raise (LibraryError 2), w);
  recursion_limit := 1000;
  nesting_limit := 100
|}.

(** A world, given as the log of its draws. *)
Definition drawn (log : list (Q * Q)) : @World env := log.

End Toy.

(** ** Vocabulary of the properties *)

Section Vocabulary.
Context {E : Env}.

Definition is_parameter (s : SubParam) : Prop := is_constant s = false.

(** Modelled from the spec: the "_"-join of the non-empty members of a
    list of names, in their order.  An empty member is passed over; a
    member followed by no non-empty member ends the name; any other
    member is followed by "_" and the join of the members after it. *)
Fixpoint underscore_join (members : list string) : string :=
  match members with
  | [] => ""
  | m :: rest =>
      let joined := underscore_join rest in
      if String.eqb m "" then joined
      else if String.eqb joined "" then m
      else m ++ "_" ++ joined
  end.

(** [par.params] of an entry of [_params] that is not a constant *)
Definition entry_params (s : SubParam) : list SubParam :=
  match s with SPar q => Parameter_params q | SConst _ => [] end.

(** The evaluations of the sub-functions that [__call__] looks up under
    [self._funcs[kw]]. *)
Definition sub_evals (params : gmap string PyObj)
    (fs : list (string * FunctionInst)) : list (string * sub_eval) :=
  map (fun kf => (fst kf, (Dict.keys (f_func_kwargs (snd kf)),
                           Function_call (snd kf) [] params None))) fs.

(** [kwargs.get('func', self._func)] *)
Definition chosen_func (self : FunctionInst) (func : option Callable)
  : Callable :=
  match func with Some f => f | None => f_func self end.

(** The keyword set after the turns of the loop of [__call__] for the keys
    [kws], and after the whole loop. *)
Definition resolve_keys (self : FunctionInst) (params : gmap string PyObj)
    (kws : list string) (kwargs : gmap string PyObj)
  : M (gmap string PyObj) :=
  resolve_loop (f_params self) (f_defaults self)
               (sub_evals params (f_funcs self)) params kws kwargs.

Definition resolved_kwargs (self : FunctionInst) (params : gmap string PyObj)
    (kwargs : gmap string PyObj) : M (gmap string PyObj) :=
  resolve_keys self params (Dict.keys (f_func_kwargs self)) kwargs.

(** What a sub-function [g] is passed out of a keyword set: the keys it
    declares; [params] travels beside them. *)
Definition forwarded (g : FunctionInst) (kwargs : gmap string PyObj)
  : gmap string PyObj :=
  delete "params"
    (filter (fun kv => kv.1 ∈ Dict.keys (f_func_kwargs g)) kwargs).

(** One turn of the loop, from the keyword set [cur] in the world [w] to
    [cur1] in [w1]. *)
Definition slot_step (self : FunctionInst) (params : gmap string PyObj)
    (kw : string) (cur : gmap string PyObj) (w : World)
    (cur1 : gmap string PyObj) (w1 : World) : Prop :=
  match cur !! kw with
  | Some _ => cur1 = cur /\ w1 = w
  | None =>
      match Dict.get kw (f_params self) with
      | Some par =>
          match params !! sub_name par with
          | Some v => cur1 = <[kw := v]> cur /\ w1 = w
          | None =>
              match par with
              | SConst c =>
                  exists v, get_value recursion_limit c = Ok v /\
                            cur1 = <[kw := OLit v]> cur /\ w1 = w
              | SPar _ => cur1 = cur /\ w1 = w
              end
          end
      | None =>
          match Dict.get kw (f_defaults self) with
          | Some d => cur1 = <[kw := d]> cur /\ w1 = w
          | None =>
              match Dict.get kw (f_funcs self) with
              | Some g =>
                  exists v,
                    Function_call g [] params None (forwarded g cur) w
                    = (Ok v, w1) /\
                    cur1 = <[kw := v]> cur
              | None => cur1 = cur /\ w1 = w
              end
          end
      end
  end.

(** How the slot [kw] stands in the keyword set [final] that the loop over
    the keys [kws] reaches from the overrides in the world [w]: the
    priority order of the resolution.  A sub-function is evaluated on the
    keys it declares out of the keyword set [current] of that moment, the
    one reached after the turns for the slots [before] it. *)
Definition slot_resolved_in (self : FunctionInst)
    (params : gmap string PyObj) (kws : list string)
    (overrides : gmap string PyObj) (w : World)
    (final : gmap string PyObj) (kw : string) : Prop :=
  match overrides !! kw with
  | Some v => final !! kw = Some v
  | None =>
      match Dict.get kw (f_params self) with
      | Some par =>
          match params !! sub_name par with
          | Some v => final !! kw = Some v
          | None =>
              match par with
              | SConst c =>
                  exists v, get_value recursion_limit c = Ok v /\
                            final !! kw = Some (OLit v)
              | SPar _ => final !! kw = None
              end
          end
      | None =>
          match Dict.get kw (f_defaults self) with
          | Some d => final !! kw = Some d
          | None =>
              match Dict.get kw (f_funcs self) with
              | Some g =>
                  exists before after current w1 v w2,
                    kws = (before ++ kw :: after)%list /\
                    resolve_keys self params before overrides w
                    = (Ok current, w1) /\
                    Function_call g [] params None (forwarded g current) w1
                    = (Ok v, w2) /\
                    final !! kw = Some v
              | None => final !! kw = None
              end
          end
      end
  end.

Definition slot_resolved (self : FunctionInst) (params : gmap string PyObj)
    (overrides : gmap string PyObj) (w : World)
    (final : gmap string PyObj) (kw : string) : Prop :=
  slot_resolved_in self params (Dict.keys (f_func_kwargs self))
                   overrides w final kw.

(** The resolution as the specification words it: as the loop of
    [__call__], but a sub-function is evaluated on the overrides it
    declares, whatever was resolved before it. *)
Definition specified_slot (self : FunctionInst) (params : gmap string PyObj)
    (overrides : gmap string PyObj) (kw : string)
    (kwargs : gmap string PyObj) : M (gmap string PyObj) :=
  match overrides !! kw with
  | Some _ => ret kwargs
  | None =>
      match Dict.get kw (f_params self) with
      | Some par =>
          match params !! sub_name par with
          | Some v => ret (<[kw := v]> kwargs)
          | None =>
              match par with
              | SConst c =>
                  v <- lift (get_value recursion_limit c) ;;
                  ret (<[kw := OLit v]> kwargs)
              | SPar _ => ret kwargs
              end
          end
      | None =>
          match Dict.get kw (f_defaults self) with
          | Some d => ret (<[kw := d]> kwargs)
          | None =>
              match Dict.get kw (f_funcs self) with
              | Some g =>
                  v <- Function_call g [] params None (forwarded g overrides) ;;
                  ret (<[kw := v]> kwargs)
              | None => ret kwargs
              end
          end
      end
  end.

Fixpoint specified_loop (self : FunctionInst) (params : gmap string PyObj)
    (overrides : gmap string PyObj) (kws : list string)
    (kwargs : gmap string PyObj) : M (gmap string PyObj) :=
  match kws with
  | [] => ret kwargs
  | kw :: kws' =>
      kwargs' <- specified_slot self params overrides kw kwargs ;;
      specified_loop self params overrides kws' kwargs'
  end.

Definition specified_call (self : FunctionInst) (args : list PyObj)
    (params : gmap string PyObj) (func : option Callable)
    (overrides : gmap string PyObj) : M PyObj :=
  kwargs1 <- specified_loop self params overrides
               (Dict.keys (f_func_kwargs self)) overrides ;;
  run_callable (chosen_func self func) args
    (clean_up (f_func_kwargs self) (pass_psr (f_psr self) kwargs1)).

(** The slots of the priors of Uniform and LinearExp with literal bounds. *)
Definition bounds (a b : lit) : list (string * PyObj) :=
  [("pmin", OLit a); ("pmax", OLit b)].

(** [_sample(parlist, parvalues)] with [d] nested calls of [sample] left *)
Fixpoint sample_loop (d : nat) (l : list SubParam)
    (parvalues : gmap string PyObj) : M (gmap string PyObj) :=
  match l with
  | [] => ret parvalues
  | par :: l' =>
      if negb (object_in par parvalues) then
        match par with
        | SConst _ => raise (AttributeError "object has no attribute 'params'")
        | SPar p =>
            hyper <- sample_at d (tail (Parameter_params p)) ;;
            let parvalues := hyper ∪ parvalues in
            v <- Parameter_sample p (Some parvalues) ∅ ;;
            sample_loop d l' (<[par_name p := v]> parvalues)
        end
      else sample_loop d l' parvalues
  end.

(** Sum and product of a list of numbers. *)
Definition Qsum (l : list Q) : Q := fold_right Qplus 0%Q l.
Definition Qprod (l : list Q) : Q := fold_right Qmult 1%Q l.

(** Every declared positional argument of [func] is given, among the
    leading positional arguments or by keyword. *)
Definition all_supplied (func : Callable) (args : list PyObj)
    (kwargs : list (string * PyObj)) : Prop :=
  forall fa, In fa (fst (get_funcargs func)) ->
             In fa (take (length args) (fst (get_funcargs func))) \/
             In fa (Dict.keys kwargs).

End Vocabulary.

(** ** Example graphs *)

Module Ex.

Definition num (q : Q) : PyObj := OLit (LNum q).

(** [h = Uniform(0, 1)('h')], a hyperparameter shared by
    [a = Uniform(h, 2)('a')] and [b = Uniform(h, 3)('b')]. *)
Definition h : ParameterInst := Parameter_init (Uniform (num 0) (num 1) None) "h".
Definition a : ParameterInst :=
  Parameter_init (Uniform (OParameter h) (num 2) None) "a".
Definition b : ParameterInst :=
  Parameter_init (Uniform (OParameter h) (num 3) None) "b".

(** [x = Uniform(0, 1, size=3)('x')] *)
Definition x : ParameterInst :=
  Parameter_init (Uniform (num 0) (num 1) (Some 3)) "x".

(** [Function(inner, a=Uniform(0, 1))("sig")] *)
Definition sig_class : FunctionClass :=
  Function (PyFunc 1) "" [("a", OParameterClass (Uniform (num 0) (num 1) None))].

(** [Function(outer, a=1, g=Function(inner, a=2))("sig")] *)
Definition outer : FunctionInst :=
  Function_init
    (Function (PyFunc 0) ""
       [("a", num 1);
        ("g", OFunctionClass (Function (PyFunc 1) "" [("a", num 2)]))])
    "sig" LNone.

(** The keyword set of [outer] after the resolution without overrides. *)
Definition outer_resolved : gmap string PyObj :=
  <["g" := num 1]> {["a" := num 1]}.

End Ex.



(** ** Vocabulary of the further properties *)

Section MoreVocabulary.
Context {E : Env}.

(** Every slot is bound to a plain value. *)
Definition all_literal (func_kwargs : list (string * PyObj)) : Prop :=
  Forall (fun kv => is_graph_object (snd kv) = false) func_kwargs.

(** The parameters a sampling of [parlist] involves: the listed ones and
    those of their flattened lists. *)
Definition involved (parlist : list SubParam) : list SubParam :=
  concat (map entry_params parlist).

(** The depth of the graph under a parameter and under a function, along
    the sub-parameter maps. *)
Fixpoint par_height (p : ParameterInst) : nat :=
  match p with
  | mkParameter _ prior _ => S (fun_height prior)
  end
with fun_height (f : FunctionInst) : nat :=
  match f with
  | mkFunction _ _ _params _ _ _ _ =>
      (fix tallest (l : list (string * SubParam)) : nat :=
         match l with
         | [] => 0
         | (_, SPar q) :: l' => Nat.max (par_height q) (tallest l')
         | (_, SConst _) :: l' => tallest l'
         end) _params
  end.

(** What [__init__] makes of a slot: a sub-parameter, of a Parameter or
    Constant given as class or as instance; a sub-function, of a Function
    given as class or as instance. *)
Definition made_parameter (name fname : string) (slot : string * PyObj)
    (s : SubParam) : Prop :=
  match snd slot with
  | OParameterClass pc =>
      s = SPar (Parameter_init pc (join_names [name; fname; fst slot]))
  | OConstantClass cc =>
      s = SConst (ConstantParameter_init cc
                    (join_names [name; fname; fst slot]))
  | OParameter p => s = SPar p
  | OConstant c => s = SConst c
  | _ => False
  end.

Definition made_function (name fname : string) (psr : lit)
    (slot : string * PyObj) (g : FunctionInst) : Prop :=
  match snd slot with
  | OFunctionClass fc =>
      g = Function_init fc (join_names [name; fname; fst slot]) psr
  | OFunction f => g = f
  | _ => False
  end.

(** What holds of the three maps all along the loop of [__init__] over
    the slots [slots_given]. *)
Definition from_slots (name fname : string) (psr : lit)
    (slots_given : list (string * PyObj)) (st : slots) : Prop :=
  (forall k v, In (k, v) (s_defaults st) ->
               In (k, v) slots_given /\ is_graph_object v = false) /\
  (forall k g, In (k, g) (s_funcs st) ->
               exists arg, In (k, arg) slots_given /\
                           made_function name fname psr (k, arg) g) /\
  (forall k s, In (k, s) (s_params st) ->
               (exists arg, In (k, arg) slots_given /\
                            made_parameter name fname (k, arg) s) \/
               (exists k' arg g,
                   In (k', arg) slots_given /\
                   made_function name fname psr (k', arg) g /\
                   In (k, s) (f_params g))).

(** The names under which a Function reads the context: those of its
    sub-parameters and of the sub-parameters of its sub-functions, at any
    depth; and the depth of the nesting of sub-functions. *)
Fixpoint reads (f : FunctionInst) : list string :=
  match f with
  | mkFunction _ _ _params _ _funcs _ _ =>
      (map (fun entry => sub_name (snd entry)) _params ++
       (fix below (l : list (string * FunctionInst)) : list string :=
          match l with
          | [] => []
          | (_, g) :: l' => reads g ++ below l'
          end) _funcs)%list
  end.

Fixpoint nesting (f : FunctionInst) : nat :=
  match f with
  | mkFunction _ _ _ _ _funcs _ _ =>
      S ((fix deepest (l : list (string * FunctionInst)) : nat :=
            match l with
            | [] => 0
            | (_, g) :: l' => Nat.max (nesting g) (deepest l')
            end) _funcs)
  end.

(** Two contexts hold the same under every name of [names]. *)
Definition agree_on (names : list string) (c1 c2 : gmap string PyObj)
  : Prop :=
  forall n, In n names -> c1 !! n = c2 !! n.

(** The message of the size check of [NormalSampler]. *)
Definition size_mismatch_msg : string :=
  "Size mismatch between Parameter size and distribution arguments".

End MoreVocabulary.
(** * Properties *)

Section Properties.
Context {E : Env}.

(** ** Dictionaries *)

Lemma Dict_get_set_eq {V} (k : string) (v : V) (d : list (string * V)) :
  Dict.get k (Dict.set k v d) = Some v.
Proof.
  induction d as [|[k' v'] d IH]; simpl.
  - now rewrite String.eqb_refl.
  - destruct (String.eqb k k') eqn:Hk; simpl.
    + now rewrite String.eqb_refl.
    + now rewrite Hk.
Qed.

Lemma Dict_get_set_ne {V} (k k0 : string) (v : V) (d : list (string * V)) :
  k <> k0 -> Dict.get k (Dict.set k0 v d) = Dict.get k d.
Proof.
  intros Hne. induction d as [|[k' v'] d IH]; simpl.
  - destruct (String.eqb k k0) eqn:Hk; [|reflexivity].
    apply String.eqb_eq in Hk. contradiction.
  - destruct (String.eqb k0 k') eqn:Hk0; simpl.
    + apply String.eqb_eq in Hk0. subst k'.
      destruct (String.eqb k k0) eqn:Hk; [|reflexivity].
      apply String.eqb_eq in Hk. contradiction.
    + now rewrite IH.
Qed.

Lemma Dict_get_update_None {V} (k : string) (other d : list (string * V)) :
  Dict.get k other = None ->
  Dict.get k (Dict.update d other) = Dict.get k d.
Proof.
  unfold Dict.update. revert d.
  induction other as [|[k' v'] other IH]; intros d Hnone; simpl in *.
  - reflexivity.
  - destruct (String.eqb k k') eqn:Hk; [discriminate|].
    rewrite IH by assumption.
    apply Dict_get_set_ne. intros ->. now rewrite String.eqb_refl in Hk.
Qed.

Lemma Dict_set_In {V} (k : string) (v : V) (d : list (string * V)) :
  In (k, v) (Dict.set k v d).
Proof.
  induction d as [|[k' v'] d IH]; simpl.
  - now left.
  - destruct (String.eqb k k'); simpl; auto.
Qed.

Lemma Dict_set_In_ne {V} (k k0 : string) (v v0 : V) (d : list (string * V)) :
  k <> k0 -> In (k, v) d -> In (k, v) (Dict.set k0 v0 d).
Proof.
  intros Hne. induction d as [|[k' v'] d IH]; simpl; intros Hin.
  - contradiction.
  - destruct (String.eqb k0 k') eqn:Hk0; simpl.
    + apply String.eqb_eq in Hk0. subst k'.
      destruct Hin as [Heq|Hin]; [congruence | now right].
    + destruct Hin as [Heq|Hin]; [now left | right; auto].
Qed.

(** ** Rebinding *)

(** C8. Calling an instantiated Parameter or ConstantParameter with any
    candidate name returns the instance itself: name, prior, size, sampler
    (and, for a constant, name, class and value entry) are those it had
    before the call. *)
Theorem rebinding_returns_self :
  (forall (p : ParameterInst) (candidate : string),
      Parameter_call p candidate = p /\
      par_name (Parameter_call p candidate) = par_name p /\
      par_prior (Parameter_call p candidate) = par_prior p /\
      p_size (par_class (Parameter_call p candidate)) = p_size (par_class p) /\
      p_sampler (par_class (Parameter_call p candidate))
        = p_sampler (par_class p)) /\
  (forall (c : ConstantParameter) (candidate : string),
      ConstantParameter_call c candidate = c /\
      c_name (ConstantParameter_call c candidate) = c_name c).
Proof.
  split; intros; unfold Parameter_call, ConstantParameter_call; tauto.
Qed.

(** ** The attribute [value] *)

Lemma get_value_base (depth : nat) (name : string) (entry : option lit) :
  get_value depth (mkConstantParameter name ConstantParameter_class entry)
  = Raise RecursionError.
Proof. induction depth as [|d IH]; simpl; [reflexivity | exact IH]. Qed.

Lemma set_value_base (depth : nat) (name : string) (entry : option lit)
    (v : lit) :
  set_value depth (mkConstantParameter name ConstantParameter_class entry) v
  = Raise RecursionError.
Proof. induction depth as [|d IH]; simpl; [reflexivity | exact IH]. Qed.

Lemma value_step_base (n : nat) (name : string) (entry : option lit) :
  Nat.iter n (value_step (mkConstantParameter name ConstantParameter_class entry))
           (Lookup 0)
  = Lookup n.
Proof. induction n as [|n IH]; simpl; [reflexivity | now rewrite IH]. Qed.

(** C10. On an instance of the base class ConstantParameter, reading and
    writing [value] never come to an end: getter and setter re-enter
    themselves, so after any number of steps the read is still a lookup,
    one frame deeper each time, and under every bound on the stack the
    read and the write exhaust it without a value.  On an instance of a
    class made by [Constant(val)] the class attribute shadows the property
    and the read returns [val] at once, without any call. *)
Theorem base_constant_value_never_returns :
  forall (depth : nat) (name : string),
    (forall entry v,
        let c := mkConstantParameter name ConstantParameter_class entry in
        Nat.iter depth (value_step c) (Lookup 0) = Lookup depth /\
        get_value depth c = Raise RecursionError /\
        set_value depth c v = Raise RecursionError) /\
    (forall val,
        let c := ConstantParameter_init (Constant val) name in
        value_step c (Lookup 0) = Found val /\
        get_value depth c = Ok val).
Proof.
  intros depth name. split.
  - intros entry v c. split; [apply value_step_base|].
    split; [apply get_value_base | apply set_value_base].
  - intros val c. split; [reflexivity|]. destruct depth; reflexivity.
Qed.

(** ** Flattening *)

Lemma Parameter_params_unfold (p : ParameterInst) :
  Parameter_params p
  = SPar p :: List.filter (fun par => negb (is_constant par))
                          (Function_params (par_prior p)).
Proof. destruct p; reflexivity. Qed.

Lemma Function_params_unfold (f : FunctionInst) :
  Function_params f
  = concat (map entry_params
              (List.filter (fun par => negb (is_constant par))
                           (Dict.values (f_params f)))).
Proof.
  destruct f as [fn psr ps ds fs n kw]. simpl.
  induction ps as [|[k [q|c]] ps IH]; simpl.
  - reflexivity.
  - now rewrite IH.
  - exact IH.
Qed.

Lemma Parameter_params_no_constant (p : ParameterInst) :
  Forall is_parameter (Parameter_params p).
Proof.
  rewrite Parameter_params_unfold. constructor; [reflexivity|].
  apply List.Forall_forall. intros x Hx.
  apply List.filter_In in Hx. destruct Hx as [_ Hx].
  unfold is_parameter. now destruct (is_constant x).
Qed.

Lemma Function_params_no_constant (f : FunctionInst) :
  Forall is_parameter (Function_params f).
Proof.
  rewrite Function_params_unfold.
  induction (List.filter (fun par => negb (is_constant par))
                          (Dict.values (f_params f))) as [|s l IH]; simpl.
  - constructor.
  - apply List.Forall_app. split; [|exact IH].
    destruct s as [q|c]; [apply Parameter_params_no_constant | constructor].
Qed.

(** C6. [Parameter.params] is the parameter itself followed by the
    non-constant members of the flattened list of its prior, which is the
    concatenation of the [params] of the non-constant entries of the prior's
    sub-parameter map; and no ConstantParameter occurs in the [params] of a
    Parameter or of a Function. *)
Theorem params_flattening :
  (forall p : ParameterInst,
      Parameter_params p
      = SPar p :: List.filter (fun par => negb (is_constant par))
                              (Function_params (par_prior p)) /\
      Forall is_parameter (Parameter_params p)) /\
  (forall f : FunctionInst,
      Function_params f
      = concat (map entry_params
                  (List.filter (fun par => negb (is_constant par))
                               (Dict.values (f_params f)))) /\
      Forall is_parameter (Function_params f)).
Proof.
  split.
  - intros p. split;
      [apply Parameter_params_unfold | apply Parameter_params_no_constant].
  - intros f. split;
      [apply Function_params_unfold | apply Function_params_no_constant].
Qed.

(** ** Instantiation *)

Lemma Function_init_unfold (func : Callable) (fname : string)
    (func_kwargs : list (string * PyObj)) (name : string) (psr : lit) :
  Function_init (mkFunctionClass func fname func_kwargs) name psr
  = let st := fold_left (classify name fname psr) func_kwargs
                        (mkSlots [] [] []) in
    mkFunction (selection_func func) psr (s_params st) (s_defaults st)
               (s_funcs st) (join_names [name; fname]) func_kwargs.
Proof.
  simpl.
  match goal with
  | |- mkFunction _ _ (s_params (?loop _ _)) _ _ _ _ = _ =>
      assert (Hloop : forall l st,
                 loop l st = fold_left (classify name fname psr) l st)
  end.
  { induction l as [|[kw arg] l IH]; intros st; simpl.
    - reflexivity.
    - destruct arg; apply IH. }
  now rewrite !Hloop.
Qed.

Lemma Parameter_init_name (cls : ParameterClass) (name : string) :
  par_name (Parameter_init cls name) = name.
Proof. destruct cls; reflexivity. Qed.

Lemma Parameter_init_class (cls : ParameterClass) (name : string) :
  par_class (Parameter_init cls name) = cls.
Proof. destruct cls; reflexivity. Qed.

Lemma Function_init_name (cls : FunctionClass) (name : string) (psr : lit) :
  f_name (Function_init cls name psr) = join_names [name; fc_fname cls].
Proof. destruct cls. now rewrite Function_init_unfold. Qed.

Section Loop.
Variables (name fname : string) (psr : lit).

Lemma classify_funcs_other (st : slots) (slot : string * PyObj) (kw : string) :
  kw <> fst slot ->
  Dict.get kw (s_funcs (classify name fname psr st slot))
  = Dict.get kw (s_funcs st).
Proof.
  intros Hne. destruct slot as [k arg]. simpl in Hne.
  destruct arg; simpl; try reflexivity; now apply Dict_get_set_ne.
Qed.

Lemma classify_funcs_In (st : slots) (slot : string * PyObj) (k : string)
    (g : FunctionInst) :
  k <> fst slot -> In (k, g) (s_funcs st) ->
  In (k, g) (s_funcs (classify name fname psr st slot)).
Proof.
  intros Hne Hin. destruct slot as [k' arg]. simpl in Hne.
  destruct arg; simpl; try assumption; now apply Dict_set_In_ne.
Qed.

Lemma run_funcs_other (l : list (string * PyObj)) (st : slots) (kw : string) :
  ~ In kw (Dict.keys l) ->
  Dict.get kw (s_funcs (fold_left (classify name fname psr) l st)) = Dict.get kw (s_funcs st).
Proof.
  revert st. induction l as [|slot l IH]; intros st Hnotin; simpl.
  - reflexivity.
  - simpl in Hnotin. simpl. rewrite IH by tauto.
    apply classify_funcs_other. intros ->. tauto.
Qed.

Lemma run_funcs_In (l : list (string * PyObj)) (st : slots) (k : string)
    (g : FunctionInst) :
  ~ In k (Dict.keys l) -> In (k, g) (s_funcs st) ->
  In (k, g) (s_funcs (fold_left (classify name fname psr) l st)).
Proof.
  revert st. induction l as [|slot l IH]; intros st Hnotin Hin; simpl.
  - assumption.
  - simpl in Hnotin. simpl. apply IH; [tauto|].
    apply classify_funcs_In; [|assumption]. intros ->. tauto.
Qed.

(** A later slot changes the entry [kw] of [_params] only by merging the
    sub-parameters of a sub-function that has an entry [kw] itself. *)
Lemma run_params_other (l : list (string * PyObj)) (st : slots) (kw : string) :
  List.NoDup (Dict.keys l) -> ~ In kw (Dict.keys l) ->
  (forall k g, In (k, g) (s_funcs (fold_left (classify name fname psr) l st)) ->
               Dict.get kw (f_params g) = None) ->
  Dict.get kw (s_params (fold_left (classify name fname psr) l st)) = Dict.get kw (s_params st).
Proof.
  revert st. induction l as [|[k arg] l IH]; intros st Hnd Hnotin Hfree.
  - reflexivity.
  - simpl in Hnd, Hnotin. apply List.NoDup_cons_iff in Hnd.
    destruct Hnd as [Hk Hnd].
    simpl in *.
    rewrite IH; [|assumption|tauto|assumption].
    assert (Hne : kw <> k) by (intros ->; tauto).
    destruct arg; simpl; try reflexivity;
      try (now apply Dict_get_set_ne).
    + simpl in Hfree. apply Dict_get_update_None. apply (Hfree k _).
      apply run_funcs_In; [assumption|]. simpl. apply Dict_set_In.
    + simpl in Hfree. apply Dict_get_update_None. apply (Hfree k f).
      apply run_funcs_In; [assumption|]. simpl. apply Dict_set_In.
Qed.
End Loop.

Lemma concat_nonempty (x : string) (xs : list string) :
  x <> "" -> String.concat "_" (x :: xs) <> "".
Proof.
  intros Hx. destruct xs as [|y ys]; simpl; [exact Hx|].
  destruct x; [congruence | discriminate].
Qed.

(** The join of [__init__] is the join of the specification. *)
Lemma join_names_underscore_join (parts : list string) :
  join_names parts = underscore_join parts.
Proof.
  unfold join_names. induction parts as [|m rest IH]; [reflexivity|].
  cbn [List.filter underscore_join].
  destruct (String.eqb_spec m "") as [->|Hm]; cbn [negb]; [exact IH|].
  rewrite <- IH.
  destruct (List.filter (fun n => negb (String.eqb n "")) rest)
    as [|x xs] eqn:Hkept.
  - reflexivity.
  - assert (Hx : x <> "").
    { assert (Hin : In x (List.filter (fun n => negb (String.eqb n "")) rest))
        by (rewrite Hkept; now left).
      apply List.filter_In in Hin. destruct Hin as [_ Hin].
      intros ->. discriminate Hin. }
    destruct (String.eqb_spec (String.concat "_" (x :: xs)) "") as [Hnil|_];
      [now apply concat_nonempty in Hnil | reflexivity].
Qed.

(** C5. An instance of a Function class is named by the "_"-join of the
    non-empty members of (context name, intrinsic name), and its maps are
    those the turns of the loop of [__init__] build.  A turn for a slot
    bound to an uninstantiated Parameter, Constant or Function class
    instantiates it under the "_"-join of the non-empty members of (context
    name, intrinsic name, slot key); that is the name the sub-parameter
    bears, and the context name of the sub-function.  In the finished
    instance the entry under the key is that sub-parameter or sub-function,
    the keys of [func_kwargs] being distinct and, for a sub-parameter, no
    sub-function of the instance merging an entry under the same key.
    The names are stated with the join of the specification,
    [underscore_join], not with the one [__init__] computes. *)
Theorem instantiation_names (func : Callable) (fname : string)
    (func_kwargs : list (string * PyObj)) (name : string) (psr : lit) :
  let inst := Function_init (Function func fname func_kwargs) name psr in
  let st := fold_left (classify name fname psr) func_kwargs
                      (mkSlots [] [] []) in
  (f_name inst = underscore_join [name; fname] /\
   f_params inst = s_params st /\ f_funcs inst = s_funcs st) /\
  (forall kw st0,
      let pname := underscore_join [name; fname; kw] in
      (forall pc,
          classify name fname psr st0 (kw, OParameterClass pc)
          = set_param kw (SPar (Parameter_init pc pname)) st0 /\
          par_name (Parameter_init pc pname) = pname) /\
      (forall cc,
          classify name fname psr st0 (kw, OConstantClass cc)
          = set_param kw (SConst (ConstantParameter_init cc pname)) st0 /\
          c_name (ConstantParameter_init cc pname) = pname) /\
      (forall fc,
          classify name fname psr st0 (kw, OFunctionClass fc)
          = set_func kw (Function_init fc pname psr) st0 /\
          f_name (Function_init fc pname psr)
          = underscore_join [pname; fc_fname fc])) /\
  (forall kw arg,
      let pname := underscore_join [name; fname; kw] in
      List.NoDup (Dict.keys func_kwargs) ->
      In (kw, arg) func_kwargs ->
      match arg with
      | OParameterClass pc =>
          (forall k g, In (k, g) (f_funcs inst) ->
                       Dict.get kw (f_params g) = None) ->
          Dict.get kw (f_params inst) = Some (SPar (Parameter_init pc pname))
      | OConstantClass cc =>
          (forall k g, In (k, g) (f_funcs inst) ->
                       Dict.get kw (f_params g) = None) ->
          Dict.get kw (f_params inst)
          = Some (SConst (ConstantParameter_init cc pname))
      | OFunctionClass fc =>
          Dict.get kw (f_funcs inst) = Some (Function_init fc pname psr)
      | _ => True
      end).
Proof.
  intros inst st. split; [|split].
  - subst inst st. unfold Function. rewrite Function_init_unfold.
    rewrite <- join_names_underscore_join. repeat split.
  - intros kw st0 pname. subst pname.
    rewrite <- (join_names_underscore_join [name; fname; kw]).
    repeat split.
    + apply Parameter_init_name.
    + rewrite <- join_names_underscore_join. apply Function_init_name.
  - intros kw arg pname Hnd Hin. subst pname.
    rewrite <- (join_names_underscore_join [name; fname; kw]).
    destruct (List.in_split _ _ Hin) as (pre & post & Hsplit).
    assert (Hpost : List.NoDup (Dict.keys post) /\ ~ In kw (Dict.keys post)).
    { subst func_kwargs. unfold Dict.keys in Hnd. rewrite List.map_app in Hnd.
      apply List.NoDup_app_remove_l in Hnd. simpl in Hnd.
      apply List.NoDup_cons_iff in Hnd. tauto. }
    destruct Hpost as [Hndpost Hnotin].
    subst inst. unfold Function in *. rewrite Function_init_unfold in *.
    cbv zeta in *. simpl f_params in *. simpl f_funcs in *.
    rewrite Hsplit in *. rewrite List.fold_left_app in *.
    simpl fold_left in *.
    destruct arg; try exact I.
    + intros Hfree. rewrite run_params_other by assumption.
      simpl. apply Dict_get_set_eq.
    + intros Hfree. rewrite run_params_other by assumption.
      simpl. apply Dict_get_set_eq.
    + rewrite run_funcs_other by assumption.
      simpl. apply Dict_get_set_eq.
Qed.

(** ** Function.__call__ *)

Lemma Function_call_unfold (self : FunctionInst) (args : list PyObj)
    (params : gmap string PyObj) (func : option Callable)
    (kwargs : gmap string PyObj) :
  Function_call self args params func kwargs
  = (kwargs1 <- resolved_kwargs self params kwargs ;;
     run_callable (chosen_func self func) args
       (clean_up (f_func_kwargs self) (pass_psr (f_psr self) kwargs1))).
Proof.
  destruct self as [fn psr ps ds fs n kw].
  unfold resolved_kwargs, resolve_keys. simpl.
  match goal with
  | |- bind (resolve_loop _ _ (?evals fs) _ _ _) _ = _ =>
      assert (Hsubs : forall l, evals l = sub_evals params l)
  end.
  { induction l as [|[k f] l IH]; simpl; [reflexivity | now rewrite IH]. }
  now rewrite Hsubs.
Qed.

Lemma sub_evals_get (params : gmap string PyObj)
    (fs : list (string * FunctionInst)) (kw : string) :
  Dict.get kw (sub_evals params fs)
  = match Dict.get kw fs with
    | Some g => Some (Dict.keys (f_func_kwargs g),
                      Function_call g [] params None)
    | None => None
    end.
Proof.
  induction fs as [|[k f] fs IH]; simpl; [reflexivity|].
  now destruct (String.eqb kw k).
Qed.

(** ** Densities *)

Lemma fold_left_qadd (l : list Q) (acc : Q) :
  (fold_left qadd l acc == acc + Qsum l)%Q.
Proof.
  revert acc. induction l as [|y l IH]; intros acc; simpl.
  - ring.
  - rewrite IH. unfold qadd. rewrite Qred_correct. ring.
Qed.

Lemma fold_left_qmul (l : list Q) (acc : Q) :
  (fold_left qmul l acc == acc * Qprod l)%Q.
Proof.
  revert acc. induction l as [|y l IH]; intros acc; simpl.
  - ring.
  - rewrite IH. unfold qmul. rewrite Qred_correct. ring.
Qed.

(** C3. With [size] set and a prior that returns the vector of the
    per-component densities, [get_logpdf] returns the sum of their
    logarithms and [get_pdf] their product; a prior that returns one scalar
    joint density has it returned as it is by [get_pdf], and its logarithm
    by [get_logpdf], whatever [size]; with [size] None the density, and its
    elementwise logarithm, are returned unreduced. *)
Theorem density_reduction (p : ParameterInst) (value v : PyObj)
    (params : option (gmap string PyObj)) (kwargs : gmap string PyObj)
    (w w' : World) :
  resolve_value p value params = Ok v ->
  (forall n ds,
      p_size (par_class p) = Some n ->
      prior_at p v params kwargs w = (Ok (OLit (LVec ds)), w') ->
      exists s t,
        get_logpdf p value params kwargs w = (Ok (OLit (LNum s)), w') /\
        (s == Qsum (map np_log_num ds))%Q /\
        get_pdf p value params kwargs w = (Ok (OLit (LNum t)), w') /\
        (t == Qprod ds)%Q) /\
  (forall d,
      prior_at p v params kwargs w = (Ok (OLit (LNum d)), w') ->
      get_logpdf p value params kwargs w
        = (Ok (OLit (LNum (np_log_num d))), w') /\
      get_pdf p value params kwargs w = (Ok (OLit (LNum d)), w')) /\
  (forall r,
      p_size (par_class p) = None ->
      prior_at p v params kwargs w = (Ok r, w') ->
      get_logpdf p value params kwargs w = (np_log r, w') /\
      get_pdf p value params kwargs w = (Ok r, w')).
Proof.
  intros Hv. unfold get_logpdf, get_pdf, bind, lift, ret. rewrite Hv.
  split; [|split].
  - intros n ds Hsize Hprior. rewrite Hprior, Hsize. simpl.
    eexists _, _. repeat split.
    + rewrite fold_left_qadd. ring.
    + rewrite fold_left_qmul. ring.
  - intros d Hprior. rewrite Hprior. simpl.
    now destruct (p_size (par_class p)).
  - intros r Hsize Hprior. rewrite Hprior, Hsize.
    split; [now destruct (np_log r) | reflexivity].
Qed.

(** ** Priors with two literal bounds *)

Lemma bounds_instance (fn : Callable) (a b : lit) (name : string) :
  Function_init (Function fn "" (bounds a b)) name LNone
  = mkFunction fn LNone [] (bounds a b) [] (join_names [name; ""])
               (bounds a b).
Proof. reflexivity. Qed.

(** The loop of [__call__] on such a prior fills in the two literals. *)
Lemma bounds_resolved (fn : Callable) (a b : lit) (name : string)
    (params kwargs : gmap string PyObj) (w : World) :
  kwargs !! "pmin" = None -> kwargs !! "pmax" = None ->
  resolved_kwargs (Function_init (Function fn "" (bounds a b)) name LNone)
                  params kwargs w
  = (Ok (<["pmax" := OLit b]> (<["pmin" := OLit a]> kwargs)), w).
Proof.
  intros Hmin Hmax. rewrite bounds_instance.
  unfold resolved_kwargs, resolve_keys. simpl. unfold bind, resolve_slot.
  rewrite Hmin.
  simpl. rewrite lookup_insert_ne by discriminate. now rewrite Hmax.
Qed.

Lemma elem_of_declared_or_allowed (i : string) :
  i ∈ Dict.keys (bounds LNone LNone) \/ i ∈ allow_list <->
  i = "pmin" \/ i = "pmax" \/ i = "psr" \/ i = "mask" \/ i = "size".
Proof.
  unfold allow_list. simpl. rewrite !elem_of_cons, !elem_of_nil. tauto.
Qed.

(** After the clean-up only the two bounds, and what the caller passed
    under an allowed key, are left. *)
Lemma bounds_clean_up (a b : lit) (kwargs extra : gmap string PyObj) :
  (forall i, i ∈ ["pmin"; "pmax"; "psr"; "mask"; "size"] ->
             kwargs !! i = None) ->
  (forall i, is_Some (extra !! i) -> i ∈ allow_list) ->
  clean_up (bounds a b)
    (<["pmax" := OLit b]> (<["pmin" := OLit a]> (extra ∪ kwargs)))
  = <["pmax" := OLit b]> (<["pmin" := OLit a]> extra).
Proof.
  intros Hfree Hextra. apply map_eq. intros i. unfold clean_up.
  destruct (decide (i = "pmax")) as [->|Hpmax].
  { rewrite lookup_insert_eq. apply map_lookup_filter_Some.
    split; [apply lookup_insert_eq|]. left. simpl.
    rewrite !elem_of_cons. tauto. }
  destruct (decide (i = "pmin")) as [->|Hpmin].
  { rewrite lookup_insert_ne, lookup_insert_eq by discriminate.
    apply map_lookup_filter_Some.
    split; [now rewrite lookup_insert_ne, lookup_insert_eq by discriminate|].
    left. simpl. rewrite !elem_of_cons. tauto. }
  rewrite !lookup_insert_ne by congruence.
  destruct (extra !! i) as [v|] eqn:Hi.
  - apply map_lookup_filter_Some. split.
    + rewrite !lookup_insert_ne by congruence.
      apply lookup_union_Some_l. assumption.
    + right. apply Hextra. now exists v.
  - apply map_lookup_filter_None. right. intros v Hv.
    rewrite !lookup_insert_ne in Hv by congruence.
    apply lookup_union_Some_raw in Hv.
    destruct Hv as [Hv|[_ Hv]]; [congruence|].
    simpl. intros Hin.
    assert (Hfive : i ∈ ["pmin"; "pmax"; "psr"; "mask"; "size"]).
    { unfold allow_list in Hin.
      rewrite !elem_of_cons, !elem_of_nil in *. tauto. }
    rewrite (Hfree i Hfive) in Hv. discriminate.
Qed.

Lemma bind_prior_bounds (v a b : PyObj) :
  bind_args [("value", None); ("pmin", None); ("pmax", None)] [v]
            (<["pmax" := b]> (<["pmin" := a]> ∅))
  = Ok [v; a; b].
Proof. vm_compute. reflexivity. Qed.

Lemma bind_sampler_bounds (d : option PyObj) (a b s : PyObj) :
  bind_args [("pmin", None); ("pmax", None); ("size", d)] []
            (<["pmax" := b]> (<["pmin" := a]> {["size" := s]}))
  = Ok [a; b; s].
Proof. destruct d; vm_compute; reflexivity. Qed.

(** The density of a prior with literal bounds is the wrapped callable on
    (value, pmin, pmax), as long as the caller overrides neither bound and
    passes nothing under an allowed key. *)
Lemma bounds_density (fn : Callable) (a b : lit) (name : string) (v : PyObj)
    (params kwargs : gmap string PyObj) (w : World) :
  fn = FUniformPrior \/ fn = FLinearExpPrior ->
  (forall i, i ∈ ["pmin"; "pmax"; "psr"; "mask"; "size"] ->
             kwargs !! i = None) ->
  Function_call (Function_init (Function fn "" (bounds a b)) name LNone)
                [v] params None kwargs w
  = match fn with
    | FUniformPrior => UniformPrior v (OLit a) (OLit b) w
    | _ => LinearExpPrior v (OLit a) (OLit b) w
    end.
Proof.
  intros Hfn Hfree.
  rewrite Function_call_unfold. unfold bind.
  rewrite bounds_resolved
    by (apply Hfree; rewrite !elem_of_cons; tauto).
  rewrite bounds_instance. simpl f_psr. simpl f_func_kwargs.
  unfold pass_psr, chosen_func. simpl f_func.
  rewrite <- (left_id_L ∅ (∪) kwargs).
  rewrite bounds_clean_up;
    [|assumption|intros i [y Hy]; rewrite lookup_empty in Hy; discriminate].
  destruct Hfn as [-> | ->]; unfold run_callable, signature, bind, lift;
    rewrite bind_prior_bounds; reflexivity.
Qed.

(** Sampling such a prior calls the sampler on (pmin, pmax, size). *)
Lemma bounds_sampler (fn : Callable) (a b : lit) (name : string)
    (size : PyObj) (params kwargs : gmap string PyObj) (w : World) :
  fn = FUniformSampler \/ fn = FLinearExpSampler ->
  (forall i, i ∈ ["pmin"; "pmax"; "psr"; "mask"; "size"] ->
             kwargs !! i = None) ->
  forall prior,
  Function_call (Function_init (Function prior "" (bounds a b)) name LNone)
                [] params (Some fn) (<["size" := size]> kwargs) w
  = match fn with
    | FUniformSampler => UniformSampler (OLit a) (OLit b) size w
    | _ => LinearExpSampler (OLit a) (OLit b) size w
    end.
Proof.
  intros Hfn Hfree prior.
  rewrite Function_call_unfold. unfold bind.
  rewrite bounds_resolved
    by (rewrite lookup_insert_ne by discriminate;
        apply Hfree; rewrite !elem_of_cons; tauto).
  rewrite bounds_instance. simpl f_psr. simpl f_func_kwargs.
  unfold pass_psr, chosen_func.
  rewrite (insert_union_singleton_l kwargs).
  rewrite bounds_clean_up; [|assumption|].
  2:{ intros i [y Hy]. apply lookup_singleton_Some in Hy.
      destruct Hy as [<- _]. unfold allow_list.
      rewrite !elem_of_cons. tauto. }
  destruct Hfn as [-> | ->]; unfold run_callable, signature, bind, lift;
    rewrite bind_sampler_bounds; reflexivity.
Qed.

Lemma LinearExp_prior (a b : lit) (size : option nat) (name : string) :
  par_prior (Parameter_init (LinearExp (OLit a) (OLit b) size) name)
  = Function_init (Function FLinearExpPrior "" (bounds a b)) name LNone.
Proof. reflexivity. Qed.

(** C7. When [pmin >= pmax] holds in some component, the density of a
    LinearExp parameter ([get_pdf], [get_logpdf]) and its sampler
    ([sample]) raise the validation error, and the world is as it was: no
    variate was drawn.  The call overrides neither bound and passes nothing
    under an allowed key; the density is asked at a value, given or found
    in the context; [sample] is not passed a keyword named after the
    parameter. *)
Theorem LinearExp_rejects_bad_bounds (pmin pmax : lit) (size : option nat)
    (name : string) (value v : PyObj) (params : option (gmap string PyObj))
    (kwargs : gmap string PyObj) (w : World) :
  let p := Parameter_init (LinearExp (OLit pmin) (OLit pmax) size) name in
  any_ge (OLit pmin) (OLit pmax) = Ok true ->
  (forall i, i ∈ ["pmin"; "pmax"; "psr"; "mask"; "size"] ->
             kwargs !! i = None) ->
  (resolve_value p value params = Ok v ->
   get_pdf p value params kwargs w = (Raise (ValueError LinearExp_msg), w) /\
   get_logpdf p value params kwargs w
     = (Raise (ValueError LinearExp_msg), w)) /\
  (name_in_kwargs name params kwargs = false ->
   Parameter_sample p params kwargs w
     = (Raise (ValueError LinearExp_msg), w)).
Proof.
  intros p Hge Hfree. split.
  - intros Hv.
    assert (Hprior : prior_at p v params kwargs w
                     = (Raise (ValueError LinearExp_msg), w)).
    { unfold prior_at. subst p. rewrite LinearExp_prior.
      rewrite bounds_density by (auto; tauto).
      unfold LinearExpPrior, bind, lift. now rewrite Hge. }
    unfold get_pdf, get_logpdf, bind, lift. rewrite Hv, Hprior. tauto.
  - intros Hname. unfold Parameter_sample. subst p.
    rewrite Parameter_init_name, !Parameter_init_class, LinearExp_prior.
    change (p_sampler (LinearExp (OLit pmin) (OLit pmax) size))
      with (Some FLinearExpSampler).
    cbv iota beta. rewrite Hname.
    rewrite (Hfree "size") by (rewrite !elem_of_cons; tauto).
    rewrite bounds_sampler by (auto; tauto).
    unfold LinearExpSampler, bind, lift. now rewrite Hge.
Qed.

(** ** Parameter.sample *)

(** What [Parameter.sample] does, case by case. *)
Lemma Parameter_sample_cases (p : ParameterInst)
    (params : option (gmap string PyObj)) (kwargs : gmap string PyObj)
    (w : World) :
  match p_sampler (par_class p) with
  | None =>
      Parameter_sample p params kwargs w
      = (Raise (AttributeError no_sampler_msg), w)
  | Some sampler =>
      if name_in_kwargs (par_name p) params kwargs then
        Parameter_sample p params kwargs w
        = (Raise (ValueError own_value_msg), w)
      else
        kwargs !! "size" = None ->
        Parameter_sample p params kwargs w
        = Function_call (par_prior p) [] (params_or_empty params)
            (Some sampler)
            (<["size" := size_obj (p_size (par_class p))]> kwargs) w
  end.
Proof.
  unfold Parameter_sample.
  destruct (p_sampler (par_class p)); [|reflexivity].
  destruct (name_in_kwargs (par_name p) params kwargs); [reflexivity|].
  now intros ->.
Qed.

(** C4 (what the code does where the specification says otherwise). A value
    under the parameter's own name in the context passed as [params] is not
    looked at: unless the parameter is itself called "params", [sample]
    goes on to the sampler exactly as it does without that entry in sight. *)
Theorem sample_overlooks_own_value_in_params (p : ParameterInst)
    (sampler : Callable) (context : gmap string PyObj) (v : PyObj)
    (w : World) :
  p_sampler (par_class p) = Some sampler ->
  par_name p <> "params" ->
  context !! par_name p = Some v ->
  Parameter_sample p (Some context) ∅ w
  = Function_call (par_prior p) [] context (Some sampler)
      {["size" := size_obj (p_size (par_class p))]} w.
Proof.
  intros Hsampler Hname _. unfold Parameter_sample. rewrite Hsampler.
  unfold name_in_kwargs. rewrite lookup_empty.
  destruct (String.eqb (par_name p) "params") eqn:Heq.
  - apply String.eqb_eq in Heq. contradiction.
  - reflexivity.
Qed.

(** ** The decorator *)

Lemma Dict_mem_In {V} (k : string) (d : list (string * V)) :
  Dict.mem k d = true <-> In k (Dict.keys d).
Proof.
  unfold Dict.mem. induction d as [|[k' v'] d IH]; simpl.
  - split; [discriminate | contradiction].
  - destruct (String.eqb k k') eqn:Hk.
    + apply String.eqb_eq in Hk. subst. tauto.
    + rewrite IH. split; [tauto|]. intros [Heq|Hin]; [|assumption].
      subst. now rewrite String.eqb_refl in Hk.
Qed.

Lemma Dict_mem_set {V} (k k0 : string) (v : V) (d : list (string * V)) :
  Dict.mem k (Dict.set k0 v d) = String.eqb k k0 || Dict.mem k d.
Proof.
  unfold Dict.mem. destruct (String.eqb k k0) eqn:Hk.
  - apply String.eqb_eq in Hk. subst. now rewrite Dict_get_set_eq.
  - rewrite Dict_get_set_ne; [reflexivity|].
    intros ->. now rewrite String.eqb_refl in Hk.
Qed.

Lemma Dict_mem_update {V} (k : string) (d other : list (string * V)) :
  Dict.mem k (Dict.update d other) = Dict.mem k d || Dict.mem k other.
Proof.
  unfold Dict.update. revert d.
  induction other as [|[k' v'] other IH]; intros d; simpl.
  - now rewrite orb_false_r.
  - rewrite IH, Dict_mem_set. clear IH.
    assert (Hcons : Dict.mem k ((k', v') :: other)
                    = String.eqb k k' || Dict.mem k other).
    { unfold Dict.mem. simpl. now destruct (String.eqb k k'). }
    rewrite Hcons.
    destruct (String.eqb k k'), (Dict.mem k d), (Dict.mem k other);
      reflexivity.
Qed.

Lemma keys_zip {V} (names : list string) (vals : list V) :
  Dict.keys (zip names vals) = take (length vals) names.
Proof.
  unfold Dict.keys. revert vals.
  induction names as [|n names IH]; intros [|v vals]; simpl;
    try reflexivity.
  now rewrite IH.
Qed.

(** The first test of [wrapper] holds exactly when an argument is missing. *)
Lemma wrapper_supplied (func : Callable) (args : list PyObj)
    (kwargs : list (string * PyObj)) :
  forallb (fun fa => Dict.mem fa (Dict.update (zip (fst (get_funcargs func)) args)
                                              kwargs))
          (fst (get_funcargs func)) = true
  <-> all_supplied func args kwargs.
Proof.
  unfold all_supplied. rewrite List.forallb_forall.
  split; intros H fa Hin; specialize (H fa Hin).
  - rewrite Dict_mem_update in H. apply orb_true_iff in H.
    rewrite !Dict_mem_In, keys_zip in H. exact H.
  - rewrite Dict_mem_update. apply orb_true_iff.
    now rewrite !Dict_mem_In, keys_zip.
Qed.

(** C9 (amended). With every declared positional argument supplied and no
    class or instance of Parameter, ConstantParameter or Function among the
    keyword arguments, [wrapper] calls the callable at once on its
    arguments and returns what it returns.  With such an object among the
    keyword arguments, or with a declared positional argument missing, it
    returns the Function class over the callable that holds the keyword
    bindings as its slots; a keyword [name] with a string names the class
    and is no slot, and no keyword is [func], which [Function] already
    has. *)
Theorem wrapper_computes_or_declares (func : Callable) (args : list PyObj)
    (kwargs : list (string * PyObj)) (w : World) :
  (all_supplied func args kwargs ->
   Forall (fun kv => is_graph_object (snd kv) = false) kwargs ->
   wrapper func args kwargs w
   = run_callable func args (list_to_map kwargs) w) /\
  (~ all_supplied func args kwargs \/
   Exists (fun kv => is_graph_object (snd kv) = true) kwargs ->
   Dict.mem "func" kwargs = false ->
   (Dict.get "name" kwargs = None ->
    wrapper func args kwargs w
    = (Ok (OFunctionClass (Function func "" kwargs)), w)) /\
   (forall n, Dict.get "name" kwargs = Some (OLit (LStr n)) ->
    wrapper func args kwargs w
    = (Ok (OFunctionClass (Function func n (Dict.remove "name" kwargs))), w))).
Proof.
  assert (Hmake : Dict.mem "func" kwargs = false ->
            (Dict.get "name" kwargs = None ->
             make_Function func kwargs w
             = (Ok (OFunctionClass (Function func "" kwargs)), w)) /\
            (forall n, Dict.get "name" kwargs = Some (OLit (LStr n)) ->
             make_Function func kwargs w
             = (Ok (OFunctionClass
                      (Function func n (Dict.remove "name" kwargs))), w))).
  { intros Hfunc. unfold make_Function, Function_from, bind, lift, ret.
    rewrite Hfunc. split; [intros -> | intros n ->]; reflexivity. }
  unfold wrapper.
  destruct (forallb _ (fst (get_funcargs func))) eqn:Hall; simpl.
  - apply wrapper_supplied in Hall. split.
    + intros _ Hplain.
      destruct (existsb _ kwargs) eqn:Hex; [|reflexivity].
      apply List.existsb_exists in Hex. destruct Hex as (kv & Hin & Hkv).
      rewrite List.Forall_forall in Hplain. specialize (Hplain kv Hin).
      congruence.
    + intros [Hmissing|Hgraph] Hfunc; [contradiction|].
      apply List.Exists_exists in Hgraph.
      destruct Hgraph as (kv & Hin & Hkv).
      assert (Hex : existsb (fun kv => is_graph_object (snd kv)) kwargs = true)
        by (apply List.existsb_exists; eauto).
      rewrite Hex. now apply Hmake.
  - assert (Hmissing : ~ all_supplied func args kwargs).
    { intros Hsup. apply wrapper_supplied in Hsup. congruence. }
    split.
    + intros Hsup. contradiction.
    + intros _ Hfunc. now apply Hmake.
Qed.

(** ** The resolution order of Function.__call__ *)

Lemma resolve_slot_Ok (self : FunctionInst) (params : gmap string PyObj)
    (kw : string) (cur : gmap string PyObj) (w : World)
    (cur1 : gmap string PyObj) (w1 : World) :
  resolve_slot (f_params self) (f_defaults self)
               (sub_evals params (f_funcs self)) params kw cur w
  = (Ok cur1, w1) ->
  slot_step self params kw cur w cur1 w1.
Proof.
  unfold resolve_slot, slot_step. rewrite sub_evals_get.
  unfold ret, bind, lift.
  destruct (cur !! kw); [intros [= <- <-]; tauto|].
  destruct (Dict.get kw (f_params self)) as [par|].
  - destruct (params !! sub_name par); [intros [= <- <-]; tauto|].
    destruct par as [q|c]; [intros [= <- <-]; tauto|].
    destruct (get_value recursion_limit c) as [v|e]; [|discriminate].
    intros [= <- <-]. now exists v.
  - destruct (Dict.get kw (f_defaults self)); [intros [= <- <-]; tauto|].
    destruct (Dict.get kw (f_funcs self)) as [g|]; [|intros [= <- <-]; tauto].
    unfold forwarded.
    destruct (Function_call g [] params None _ w) as [[v|e] w'];
      [|discriminate].
    intros [= <- <-]. now exists v.
Qed.

(** A turn of the loop touches no key but its own, and overwrites nothing. *)
Lemma slot_step_grows (self : FunctionInst) (params : gmap string PyObj)
    (kw : string) (cur : gmap string PyObj) (w : World)
    (cur1 : gmap string PyObj) (w1 : World) :
  slot_step self params kw cur w cur1 w1 ->
  cur ⊆ cur1 /\ forall k, k <> kw -> cur1 !! k = cur !! k.
Proof.
  unfold slot_step.
  destruct (cur !! kw) eqn:Hcur; [intros [-> _]; split; [reflexivity|auto]|].
  assert (Hins : forall v, cur ⊆ <[kw := v]> cur /\
                           forall k, k <> kw -> <[kw := v]> cur !! k = cur !! k).
  { intros v. split; [now apply insert_subseteq|].
    intros k Hk. now apply lookup_insert_ne. }
  destruct (Dict.get kw (f_params self)) as [par|].
  - destruct (params !! sub_name par); [intros [-> _]; apply Hins|].
    destruct par as [q|c]; [intros [-> _]; split; [reflexivity|auto]|].
    intros (v & _ & -> & _). apply Hins.
  - destruct (Dict.get kw (f_defaults self)); [intros [-> _]; apply Hins|].
    destruct (Dict.get kw (f_funcs self)) as [g|];
      [|intros [-> _]; split; [reflexivity|auto]].
    intros (v & _ & ->). apply Hins.
Qed.

Lemma resolve_keys_cons (self : FunctionInst) (params : gmap string PyObj)
    (kw : string) (kws : list string) (cur : gmap string PyObj) (w : World)
    (cur1 : gmap string PyObj) (w1 : World) :
  resolve_slot (f_params self) (f_defaults self)
               (sub_evals params (f_funcs self)) params kw cur w
  = (Ok cur1, w1) ->
  resolve_keys self params (kw :: kws) cur w
  = resolve_keys self params kws cur1 w1.
Proof.
  intros Hslot. unfold resolve_keys. simpl. unfold bind. now rewrite Hslot.
Qed.

Lemma resolve_keys_slots (self : FunctionInst) (params : gmap string PyObj)
    (kws : list string) :
  forall (start : gmap string PyObj) (w : World)
         (final : gmap string PyObj) (w1 : World),
    resolve_keys self params kws start w = (Ok final, w1) ->
    start ⊆ final /\
    (forall k, ~ In k kws -> final !! k = start !! k) /\
    (forall kw, In kw kws ->
                slot_resolved_in self params kws start w final kw).
Proof.
  induction kws as [|kw0 rest IH]; intros start w final w1 Hrun.
  - unfold resolve_keys in Hrun. simpl in Hrun. unfold ret in Hrun.
    injection Hrun as <- <-. split; [reflexivity|]. split; [auto|].
    intros kw [].
  - destruct (resolve_slot (f_params self) (f_defaults self)
                (sub_evals params (f_funcs self)) params kw0 start w)
      as [[cur1|e] w'] eqn:Hslot.
    2:{ unfold resolve_keys in Hrun. simpl in Hrun. unfold bind in Hrun.
        rewrite Hslot in Hrun. discriminate. }
    rewrite (resolve_keys_cons _ _ _ _ _ _ _ _ Hslot) in Hrun.
    destruct (IH _ _ _ _ Hrun) as (Hsub & Hout & Hin).
    pose proof (resolve_slot_Ok _ _ _ _ _ _ _ Hslot) as Hstep.
    destruct (slot_step_grows _ _ _ _ _ _ _ Hstep) as [Hgrow Hother].
    split; [now transitivity cur1|].
    split.
    { intros k Hk. simpl in Hk. rewrite Hout by tauto.
      apply Hother. intros ->. tauto. }
    intros kw Hkw.
    destruct (String.eqb_spec kw kw0) as [->|Hne].
    + (* the slot of this turn *)
      assert (Hkeep : forall v, cur1 !! kw0 = Some v -> final !! kw0 = Some v)
        by (intros v Hv; eapply lookup_weaken; eassumption).
      assert (Hnone : cur1 !! kw0 = None -> ~ In kw0 rest ->
                      final !! kw0 = None)
        by (intros Hc Hnot; now rewrite Hout).
      destruct (List.in_dec String.string_dec kw0 rest) as [Hdup|Hfresh].
      * (* the key comes again later *)
        specialize (Hin kw0 Hdup).
        unfold slot_resolved_in in *. unfold slot_step in Hstep.
        destruct (start !! kw0) eqn:Hstart.
        { destruct Hstep as [-> _]. apply Hkeep. assumption. }
        destruct (Dict.get kw0 (f_params self)) as [par|].
        { destruct (params !! sub_name par).
          { destruct Hstep as [-> _]. apply Hkeep, lookup_insert_eq. }
          destruct par as [q|c].
          { destruct Hstep as [-> _]. now rewrite Hstart in Hin. }
          destruct Hstep as (v & Hv & -> & _). exists v.
          split; [assumption | apply Hkeep, lookup_insert_eq]. }
        destruct (Dict.get kw0 (f_defaults self)).
        { destruct Hstep as [-> _]. apply Hkeep, lookup_insert_eq. }
        destruct (Dict.get kw0 (f_funcs self)) as [g|].
        { destruct Hstep as (v & Hcall & ->).
          exists [], rest, start, w, v, w'. repeat split; try assumption.
          apply Hkeep, lookup_insert_eq. }
        destruct Hstep as [-> _]. now rewrite Hstart in Hin.
      * unfold slot_resolved_in. unfold slot_step in Hstep.
        destruct (start !! kw0) eqn:Hstart.
        { destruct Hstep as [-> _]. apply Hkeep. assumption. }
        destruct (Dict.get kw0 (f_params self)) as [par|].
        { destruct (params !! sub_name par).
          { destruct Hstep as [-> _]. apply Hkeep, lookup_insert_eq. }
          destruct par as [q|c].
          { destruct Hstep as [-> _]. now apply Hnone. }
          destruct Hstep as (v & Hv & -> & _). exists v.
          split; [assumption | apply Hkeep, lookup_insert_eq]. }
        destruct (Dict.get kw0 (f_defaults self)).
        { destruct Hstep as [-> _]. apply Hkeep, lookup_insert_eq. }
        destruct (Dict.get kw0 (f_funcs self)) as [g|].
        { destruct Hstep as (v & Hcall & ->).
          exists [], rest, start, w, v, w'. repeat split; try assumption.
          apply Hkeep, lookup_insert_eq. }
        destruct Hstep as [-> _]. now apply Hnone.
    + (* a later slot *)
      assert (Hrest : In kw rest) by (destruct Hkw; [congruence|assumption]).
      specialize (Hin kw Hrest). unfold slot_resolved_in in *.
      rewrite (Hother kw Hne) in Hin.
      destruct (start !! kw); [assumption|].
      destruct (Dict.get kw (f_params self)) as [par|]; [assumption|].
      destruct (Dict.get kw (f_defaults self)); [assumption|].
      destruct (Dict.get kw (f_funcs self)) as [g|]; [|assumption].
      destruct Hin as (before & after & current & w2 & v & w3 &
                       -> & Hbefore & Hcall & Hfinal).
      exists (kw0 :: before), after, current, w2, v, w3.
      repeat split; try assumption.
      now rewrite (resolve_keys_cons _ _ _ _ _ _ _ _ Hslot).
Qed.

(** C2 (amended). When the resolution of the slots succeeds, the wrapped
    callable (or the [func] passed instead) is called on the resolved
    keyword set, from which every key that is neither a declared slot nor
    in the allow-list was dropped.  Each declared slot stands in the
    resolved set by the priority order: an override wins; else a slot in
    the sub-parameter map takes the value of the context under the
    parameter's name, else the fixed value of a constant, else stays
    unresolved; else a literal default is used; else a sub-function is
    evaluated, with the context, on the keys it declares out of the
    keyword set of that moment, which holds the overrides and the slots
    resolved before it. *)
Theorem call_resolution_order (self : FunctionInst) (args : list PyObj)
    (params : gmap string PyObj) (func : option Callable)
    (overrides : gmap string PyObj) (w : World)
    (final : gmap string PyObj) (w1 : World) :
  resolved_kwargs self params overrides w = (Ok final, w1) ->
  Function_call self args params func overrides w
  = run_callable (chosen_func self func) args
      (clean_up (f_func_kwargs self) (pass_psr (f_psr self) final)) w1 /\
  overrides ⊆ final /\
  (forall kw, In kw (Dict.keys (f_func_kwargs self)) ->
              slot_resolved self params overrides w final kw) /\
  (forall k v,
      clean_up (f_func_kwargs self) (pass_psr (f_psr self) final) !! k = Some v
      <-> pass_psr (f_psr self) final !! k = Some v /\
          (k ∈ Dict.keys (f_func_kwargs self) \/ k ∈ allow_list)).
Proof.
  intros Hres. split.
  { rewrite Function_call_unfold. unfold bind. now rewrite Hres. }
  destruct (resolve_keys_slots _ _ _ _ _ _ _ Hres) as (Hsub & _ & Hslots).
  split; [assumption|]. split; [exact Hslots|].
  intros k v. unfold clean_up. apply map_lookup_filter_Some.
Qed.

(** ** The sampling driver *)

Lemma sample_at_unfold (d : nat) (parlist : list SubParam) (w : World) :
  sample_at (S d) parlist w = sample_loop d parlist ∅ w.
Proof.
  simpl.
  match goal with
  | |- ?loop parlist ∅ w = _ =>
      assert (Hloop : forall l parvalues w,
                 loop l parvalues w = sample_loop d l parvalues w)
  end.
  { induction l as [|par l IH]; intros parvalues w0; simpl.
    - reflexivity.
    - destruct (negb (object_in par parvalues)); [|apply IH].
      destruct par as [p|c]; [|reflexivity].
      unfold bind.
      destruct (sample_at d (tail (Parameter_params p)) w0) as [[hyper|e] w1];
        [|reflexivity].
      destruct (Parameter_sample p (Some (hyper ∪ parvalues)) ∅ w1)
        as [[v|e] w2]; [|reflexivity].
      apply IH. }
  apply Hloop.
Qed.

Lemma object_in_false (par : SubParam) (parvalues : gmap string PyObj) :
  object_in par parvalues = false.
Proof.
  unfold object_in.
  induction (map fst (map_to_list parvalues)) as [|k ks IH];
    [reflexivity | exact IH].
Qed.

Lemma tail_params_are_parameters (p : ParameterInst) (q : SubParam) :
  In q (tail (Parameter_params p)) -> exists q', q = SPar q'.
Proof.
  rewrite Parameter_params_unfold. simpl. intros Hin.
  apply List.filter_In in Hin. destruct Hin as [_ Hq].
  destruct q as [q'|c]; [now exists q' | discriminate].
Qed.

Lemma Parameter_params_head (p : ParameterInst) :
  In (SPar p) (Parameter_params p).
Proof. rewrite Parameter_params_unfold. now left. Qed.

(** When the sampling returns, the mapping holds a value under the name of
    every parameter involved: the listed ones and all those of their
    flattened lists. *)
Lemma sample_at_covers (d : nat) :
  forall (parlist : list SubParam) (w : World) (m : gmap string PyObj)
         (w' : World),
    sample_at d parlist w = (Ok m, w') ->
    forall par q, In par parlist -> In q (entry_params par) ->
                  is_Some (m !! sub_name q).
Proof.
  induction d as [|d IHd]; intros parlist w m w' Hrun; [discriminate|].
  rewrite sample_at_unfold in Hrun.
  assert (Hloop : forall l parvalues w m w',
             sample_loop d l parvalues w = (Ok m, w') ->
             (forall k, is_Some (parvalues !! k) -> is_Some (m !! k)) /\
             forall par q, In par l -> In q (entry_params par) ->
                           is_Some (m !! sub_name q)).
  { clear parlist w m w' Hrun.
    induction l as [|par l IHl]; intros parvalues w m w' Hrun.
    - injection Hrun as <- <-. split; [auto|]. intros par q [].
    - simpl in Hrun. rewrite object_in_false in Hrun. simpl in Hrun.
      destruct par as [p|c]; [|discriminate].
      unfold bind in Hrun.
      destruct (sample_at d (tail (Parameter_params p)) w)
        as [[hyper|e] w1] eqn:Hhyper; [|discriminate].
      destruct (Parameter_sample p (Some (hyper ∪ parvalues)) ∅ w1)
        as [[v|e] w2]; [|discriminate].
      destruct (IHl _ _ _ _ Hrun) as [Hkeys Hrest].
      split.
      + intros k Hk. apply Hkeys.
        destruct (decide (par_name p = k)) as [<-|Hne].
        * rewrite lookup_insert_eq. eauto.
        * rewrite lookup_insert_ne by assumption.
          destruct Hk as [y Hy].
          destruct (hyper !! k) as [z|] eqn:Hz.
          -- exists z. now apply lookup_union_Some_l.
          -- exists y. rewrite lookup_union_r; assumption.
      + intros par q [<-|Hin] Hq; [|eapply Hrest; eassumption].
        simpl in Hq. rewrite Parameter_params_unfold in Hq.
        apply Hkeys. destruct Hq as [<-|Hq].
        * simpl. rewrite lookup_insert_eq. eauto.
        * assert (Htail : In q (tail (Parameter_params p)))
            by (rewrite Parameter_params_unfold; exact Hq).
          destruct (tail_params_are_parameters _ _ Htail) as [q' ->].
          destruct (IHd _ _ _ _ Hhyper (SPar q') (SPar q') Htail
                      (Parameter_params_head q')) as [y Hy].
          destruct (decide (par_name p = sub_name (SPar q'))) as [Heq|Hne].
          -- rewrite Heq, lookup_insert_eq. eauto.
          -- rewrite lookup_insert_ne by assumption.
             exists y. now apply lookup_union_Some_l. }
  intros par q. eapply Hloop. eassumption.
Qed.

End Properties.

(** * Further properties *)

Section MoreProperties.
Context {E : Env}.

(** ** Functions over plain values *)

Lemma Dict_set_fresh {V} (k : string) (v : V) (d : list (string * V)) :
  ~ In k (Dict.keys d) -> Dict.set k v d = (d ++ [(k, v)])%list.
Proof.
  induction d as [|[k' v'] d IH]; simpl; intros Hfresh.
  - reflexivity.
  - destruct (String.eqb_spec k k') as [->|Hne]; [tauto|].
    rewrite IH by tauto. reflexivity.
Qed.

Lemma Dict_get_In {V} (k : string) (v : V) (d : list (string * V)) :
  List.NoDup (Dict.keys d) -> In (k, v) d -> Dict.get k d = Some v.
Proof.
  induction d as [|[k' v'] d IH]; simpl; intros Hnd Hin; [contradiction|].
  apply List.NoDup_cons_iff in Hnd. destruct Hnd as [Hk Hnd].
  destruct Hin as [[= -> ->]|Hin].
  - now rewrite String.eqb_refl.
  - destruct (String.eqb_spec k k') as [->|Hne]; [|now apply IH].
    exfalso. apply Hk. unfold Dict.keys.
    change k' with (fst (k', v)). now apply List.in_map.
Qed.

Lemma Dict_get_Some_In {V} (k : string) (v : V) (d : list (string * V)) :
  Dict.get k d = Some v -> In (k, v) d.
Proof.
  induction d as [|[k' v'] d IH]; simpl; [discriminate|].
  destruct (String.eqb_spec k k') as [->|Hne].
  - intros [= ->]. now left.
  - intros Hget. right. now apply IH.
Qed.

(** The loop of [__init__] over plain values fills [_defaults] and nothing
    else. *)
Lemma literal_slots_fold (name fname : string) (psr : lit)
    (func_kwargs : list (string * PyObj)) :
  all_literal func_kwargs ->
  forall ps pre fs,
    List.NoDup (Dict.keys (pre ++ func_kwargs)) ->
    fold_left (classify name fname psr) func_kwargs (mkSlots ps pre fs)
    = mkSlots ps (pre ++ func_kwargs) fs.
Proof.
  induction 1 as [|[k arg] l Harg Hall IH]; intros ps pre fs Hnd; simpl.
  - now rewrite List.app_nil_r.
  - simpl in Harg. destruct arg; try discriminate.
    unfold classify. simpl. unfold set_default. simpl.
    assert (Hfresh : ~ In k (Dict.keys pre)).
    { unfold Dict.keys in *. rewrite List.map_app in Hnd. simpl in Hnd.
      apply List.NoDup_remove_2 in Hnd. intros Hin. apply Hnd.
      apply List.in_or_app. now left. }
    rewrite Dict_set_fresh by assumption.
    rewrite IH; rewrite <- List.app_assoc; [reflexivity | exact Hnd].
Qed.

Lemma literal_slots_instance (fn : Callable) (fname : string)
    (func_kwargs : list (string * PyObj)) (name : string) (psr : lit) :
  all_literal func_kwargs ->
  List.NoDup (Dict.keys func_kwargs) ->
  Function_init (Function fn fname func_kwargs) name psr
  = mkFunction fn psr [] func_kwargs [] (join_names [name; fname]) func_kwargs.
Proof.
  intros Hall Hnd. unfold Function. rewrite Function_init_unfold.
  cbv zeta. now rewrite (literal_slots_fold _ _ _ _ Hall [] [] []).
Qed.

Lemma literal_slots_resolved (params : gmap string PyObj)
    (defaults : list (string * PyObj)) :
  List.NoDup (Dict.keys defaults) ->
  forall (l : list (string * PyObj)) (cur : gmap string PyObj) (w : World),
    (forall kv, In kv l -> In kv defaults) ->
    resolve_loop [] defaults [] params (Dict.keys l) cur w
    = (Ok (cur ∪ list_to_map l), w).
Proof.
  intros Hnd. induction l as [|[k v] l IH]; intros cur w Hsub; simpl.
  - unfold ret. now rewrite (right_id_L ∅ (∪)).
  - unfold bind, resolve_slot. simpl.
    rewrite (Dict_get_In k v defaults Hnd) by (apply Hsub; now left).
    destruct (cur !! k) as [x|] eqn:Hcur; unfold ret.
    + rewrite IH by (intros kv Hkv; apply Hsub; now right).
      f_equal. f_equal. apply map_eq. intros i.
      destruct (decide (i = k)) as [->|Hne].
      * rewrite !(lookup_union_Some_l _ _ _ x) by assumption. reflexivity.
      * rewrite !lookup_union. now rewrite lookup_insert_ne by congruence.
    + rewrite IH by (intros kv Hkv; apply Hsub; now right).
      f_equal. f_equal.
      rewrite <- insert_union_l. now apply insert_union_r.
Qed.

(** X1. A Function whose slots are all bound to plain values calls the
    wrapped callable (or the [func] passed instead) on the overrides
    completed by the defaults, an override winning over the default of its
    slot; neither the context nor the name of the instance plays a part. *)
Theorem literal_slots_call (fn : Callable) (fname : string)
    (func_kwargs : list (string * PyObj)) (name : string) (psr : lit)
    (args : list PyObj) (params : gmap string PyObj) (func : option Callable)
    (kwargs : gmap string PyObj) (w : World) :
  all_literal func_kwargs ->
  List.NoDup (Dict.keys func_kwargs) ->
  Function_call (Function_init (Function fn fname func_kwargs) name psr)
                args params func kwargs w
  = run_callable (match func with Some f => f | None => fn end) args
      (clean_up func_kwargs
         (pass_psr psr (kwargs ∪ list_to_map func_kwargs))) w.
Proof.
  intros Hall Hnd. rewrite literal_slots_instance by assumption.
  rewrite Function_call_unfold. unfold resolved_kwargs, resolve_keys, bind.
  simpl. now rewrite literal_slots_resolved.
Qed.

Lemma clean_up_declared (func_kwargs : list (string * PyObj)) :
  clean_up func_kwargs (list_to_map func_kwargs) = list_to_map func_kwargs.
Proof.
  unfold clean_up. apply map_filter_id. intros i x Hix. left. simpl.
  apply elem_of_list_to_map_2 in Hix. unfold Dict.keys.
  apply list_elem_of_In. change i with (fst (i, x)).
  apply List.in_map. now apply list_elem_of_In.
Qed.

(** X2. Declaring and computing agree.  With plain values for keywords,
    the Function class over [func], instantiated under any name and called
    on the positional arguments, returns what [func] returns on these
    arguments and keywords; this is what [wrapper] returns at once when
    every declared positional argument is supplied, and when one is
    missing [wrapper] returns that very class. *)
Theorem declared_call_is_direct_call (func : Callable)
    (kwargs : list (string * PyObj)) (args : list PyObj) (name : string)
    (params : gmap string PyObj) (w : World) :
  all_literal kwargs ->
  List.NoDup (Dict.keys kwargs) ->
  Function_call (Function_init (Function func "" kwargs) name LNone)
                args params None ∅ w
  = run_callable func args (list_to_map kwargs) w /\
  (all_supplied func args kwargs ->
   wrapper func args kwargs w
   = Function_call (Function_init (Function func "" kwargs) name LNone)
                   args params None ∅ w) /\
  (forall given,
      ~ all_supplied func given kwargs ->
      Dict.mem "func" kwargs = false -> Dict.get "name" kwargs = None ->
      wrapper func given kwargs w
      = (Ok (OFunctionClass (Function func "" kwargs)), w)).
Proof.
  intros Hall Hnd.
  assert (Hcall : Function_call
                    (Function_init (Function func "" kwargs) name LNone)
                    args params None ∅ w
                  = run_callable func args (list_to_map kwargs) w).
  { rewrite literal_slots_call by assumption.
    unfold pass_psr. rewrite (left_id_L ∅ (∪)).
    now rewrite clean_up_declared. }
  split; [exact Hcall|]. split.
  - intros Hsup. rewrite Hcall. unfold wrapper.
    apply wrapper_supplied in Hsup. rewrite Hsup. simpl.
    assert (Hplain : existsb (fun kv => is_graph_object (snd kv)) kwargs
                     = false).
    { clear -Hall. induction Hall as [|kv l Hkv _ IH]; simpl;
        [reflexivity | now rewrite Hkv]. }
    now rewrite Hplain.
  - intros given Hmissing Hfunc Hname. unfold wrapper.
    destruct (forallb _ (fst (get_funcargs func))) eqn:Hsup.
    + apply wrapper_supplied in Hsup. contradiction.
    + simpl. unfold make_Function, Function_from, bind, lift, ret.
      now rewrite Hfunc, Hname.
Qed.

(** ** The prior library, end to end *)

Lemma Uniform_prior (a b : lit) (size : option nat) (name : string) :
  par_prior (Parameter_init (Uniform (OLit a) (OLit b) size) name)
  = Function_init (Function FUniformPrior "" (bounds a b)) name LNone.
Proof. reflexivity. Qed.

(** X3. A Uniform parameter with plain bounds asks the distribution
    library with [loc = pmin] and [scale = pmax - pmin]: for the density at
    the value, and for a draw with the [size] of the parameter.  When the
    difference cannot be formed the error comes back and nothing is
    drawn. *)
Theorem Uniform_asks_loc_scale (pmin pmax : lit) (size : option nat)
    (name : string) (v : PyObj) (params : option (gmap string PyObj))
    (kwargs : gmap string PyObj) (w : World) :
  let p := Parameter_init (Uniform (OLit pmin) (OLit pmax) size) name in
  (forall i, i ∈ ["pmin"; "pmax"; "psr"; "mask"; "size"] ->
             kwargs !! i = None) ->
  prior_at p v params kwargs w
  = (rbind (py_sub (OLit pmax) (OLit pmin))
           (fun scale => uniform_pdf v (OLit pmin) scale), w) /\
  (name_in_kwargs name params kwargs = false ->
   Parameter_sample p params kwargs w
   = match py_sub (OLit pmax) (OLit pmin) with
     | Ok scale => uniform_rvs (OLit pmin) scale (size_obj size) w
     | Raise e => (Raise e, w)
     end).
Proof.
  intros p Hfree. split.
  - unfold prior_at. subst p. rewrite Uniform_prior.
    rewrite bounds_density by (auto; tauto).
    unfold UniformPrior, bind, lift.
    now destruct (py_sub (OLit pmax) (OLit pmin)).
  - intros Hname. unfold Parameter_sample. subst p.
    rewrite Parameter_init_name, !Parameter_init_class, Uniform_prior.
    change (p_sampler (Uniform (OLit pmin) (OLit pmax) size))
      with (Some FUniformSampler).
    cbv iota beta. rewrite Hname.
    rewrite (Hfree "size") by (rewrite !elem_of_cons; tauto).
    rewrite bounds_sampler by (auto; tauto).
    unfold UniformSampler, bind, lift.
    now destruct (py_sub (OLit pmax) (OLit pmin)).
Qed.

Lemma len_differs_size (n : nat) (size : option nat) :
  len_differs n (size_obj size) = true <-> size <> Some n.
Proof.
  destruct size as [m|]; simpl; [|split; [discriminate | reflexivity]].
  rewrite negb_true_iff. split.
  - intros Hne [= ->]. rewrite Qeq_bool_refl in Hne. discriminate.
  - intros Hne. destruct (Qeq_bool _ _) eqn:Heq; [|reflexivity].
    apply Qeq_bool_eq in Heq. unfold Qeq, inject_Z in Heq. simpl in Heq.
    exfalso. apply Hne. f_equal. lia.
Qed.

Lemma bind_Normal_sampler (mu sigma s : PyObj) (d : option PyObj) :
  bind_args [("mu", None); ("sigma", None); ("size", d)] []
    (clean_up [("mu", mu); ("sigma", sigma)]
       (pass_psr LNone
          (<["size" := s]> ∅ ∪ list_to_map [("mu", mu); ("sigma", sigma)])))
  = Ok [mu; sigma; s].
Proof. destruct d; vm_compute; reflexivity. Qed.

(** X4. A Normal parameter with a vector for mean can be sampled only
    when its [size] is the length of the mean: otherwise, and so whenever
    [size] is left None, [sample] raises the size error and draws nothing;
    with the right [size] the library is asked for one draw of the whole
    vector ([size=None]). *)
Theorem Normal_vector_mean_needs_size (mean : list Q) (sigma : lit)
    (size : option nat) (name : string)
    (params : option (gmap string PyObj)) (w : World) :
  let p := Parameter_init (Normal (OLit (LVec mean)) (OLit sigma) size) name in
  name_in_kwargs name params ∅ = false ->
  (size <> Some (length mean) ->
   Parameter_sample p params ∅ w = (Raise (ValueError size_mismatch_msg), w)) /\
  (size = Some (length mean) ->
   Parameter_sample p params ∅ w
   = match (if Nat.eqb (np_ndim (OLit sigma)) 2 then Ok (OLit sigma)
            else py_square (OLit sigma)) with
     | Ok cov => multivariate_normal_rvs (OLit (LVec mean)) cov (OLit LNone) w
     | Raise e => (Raise e, w)
     end).
Proof.
  intros p Hname.
  assert (Hsample : Parameter_sample p params ∅ w
                    = NormalSampler (OLit (LVec mean)) (OLit sigma)
                                    (size_obj size) w).
  { unfold Parameter_sample. subst p.
    rewrite Parameter_init_name, !Parameter_init_class.
    change (p_sampler (Normal (OLit (LVec mean)) (OLit sigma) size))
      with (Some FNormalSampler).
    cbv iota beta. rewrite Hname.
    change ((∅ : gmap string PyObj) !! "size") with (@None PyObj).
    cbv iota.
    change (par_prior (Parameter_init
                         (Normal (OLit (LVec mean)) (OLit sigma) size) name))
      with (Function_init
              (Function FNormalPrior ""
                 [("mu", OLit (LVec mean)); ("sigma", OLit sigma)])
              name LNone).
    rewrite literal_slots_call.
    - unfold run_callable, signature, bind, lift.
      now rewrite bind_Normal_sampler.
    - repeat constructor.
    - repeat constructor; simpl; intuition discriminate. }
  rewrite Hsample. unfold NormalSampler. split.
  - intros Hsize. apply len_differs_size in Hsize. now rewrite Hsize.
  - intros Hsize.
    assert (Hsame : len_differs (length mean) (size_obj size) = false).
    { destruct (len_differs _ _) eqn:Hd; [|reflexivity].
      apply len_differs_size in Hd. contradiction. }
    rewrite Hsame. unfold bind, lift.
    now destruct (if Nat.eqb (np_ndim (OLit sigma)) 2 then _ else _).
Qed.









(** ** Values and hyperparameters out of the context *)

(** X6. Asking a density with no value but a context is asking it at the
    value the context holds under the parameter's name; a context without
    that name makes [get_pdf] and [get_logpdf] raise KeyError on the name,
    before the prior is called. *)
Theorem value_taken_from_context (p : ParameterInst)
    (context kwargs : gmap string PyObj) (w : World) :
  (forall v, context !! par_name p = Some v ->
     get_pdf p (OLit LNone) (Some context) kwargs w
     = get_pdf p v (Some context) kwargs w /\
     get_logpdf p (OLit LNone) (Some context) kwargs w
     = get_logpdf p v (Some context) kwargs w) /\
  (context !! par_name p = None ->
     get_pdf p (OLit LNone) (Some context) kwargs w
     = (Raise (KeyError (par_name p)), w) /\
     get_logpdf p (OLit LNone) (Some context) kwargs w
     = (Raise (KeyError (par_name p)), w)).
Proof.
  split.
  - intros v Hv.
    assert (Hsame : resolve_value p v (Some context) = Ok v).
    { unfold resolve_value. destruct v as [[]| | | | | |]; try reflexivity.
      now rewrite Hv. }
    unfold get_pdf, get_logpdf, bind, lift, resolve_value at 1 3.
    now rewrite Hv, Hsame.
  - intros Hnone. unfold get_pdf, get_logpdf, bind, lift, resolve_value.
    now rewrite Hnone.
Qed.

Lemma bind_Uniform_hyper (v x b pmin pmax : PyObj) :
  bind_args [("value", None); ("pmin", None); ("pmax", None)] [v]
    (clean_up [("pmin", pmin); ("pmax", pmax)]
       (pass_psr LNone (<["pmax" := b]> (<["pmin" := x]> ∅))))
  = Ok [v; x; b] /\
  bind_args [("value", None); ("pmin", None); ("pmax", None)] [v]
    (clean_up [("pmin", pmin); ("pmax", pmax)]
       (pass_psr LNone (<["pmax" := b]> ∅)))
  = Raise (TypeError "missing required argument").
Proof. split; vm_compute; reflexivity. Qed.

(** X7. The lower bound of a Uniform parameter being itself a parameter
    [h], the density is taken at the value the context holds under the
    name of [h]; when the context has none the bound stays unresolved and
    the call of the prior fails for the missing argument. *)
Theorem hyperparameter_read_from_context (h : ParameterInst) (pmax : lit)
    (size : option nat) (name : string) (v : PyObj)
    (context : gmap string PyObj) (w : World) :
  let p := Parameter_init (Uniform (OParameter h) (OLit pmax) size) name in
  (forall x, context !! par_name h = Some x ->
     prior_at p v (Some context) ∅ w = UniformPrior v x (OLit pmax) w) /\
  (context !! par_name h = None ->
     prior_at p v (Some context) ∅ w
     = (Raise (TypeError "missing required argument"), w)).
Proof.
  intros p.
  set (prior := mkFunction FUniformPrior LNone [("pmin", SPar h)]
                  [("pmax", OLit pmax)] [] (join_names [name; ""])
                  [("pmin", OParameter h); ("pmax", OLit pmax)]).
  assert (Hprior : par_prior p = prior) by reflexivity.
  assert (Hres : resolved_kwargs prior context ∅ w
                 = (Ok match context !! par_name h with
                       | Some x => <["pmax" := OLit pmax]> (<["pmin" := x]> ∅)
                       | None => <["pmax" := OLit pmax]> ∅
                       end, w)).
  { unfold resolved_kwargs, resolve_keys. simpl.
    unfold bind, resolve_slot, ret. simpl.
    change ((∅ : gmap string PyObj) !! "pmin") with (@None PyObj).
    cbv iota.
    destruct (context !! par_name h) as [x|].
    - now rewrite lookup_insert_ne by discriminate.
    - reflexivity. }
  unfold prior_at, params_or_empty. rewrite Hprior, Function_call_unfold.
  unfold bind. rewrite Hres. subst prior.
  unfold run_callable, chosen_func, signature, bind, lift.
  cbn [f_func f_psr f_func_kwargs].
  split.
  - intros x ->.
    now rewrite (proj1 (bind_Uniform_hyper v x (OLit pmax) (OParameter h)
                          (OLit pmax))).
  - intros ->.
    now rewrite (proj2 (bind_Uniform_hyper v (OLit LNone) (OLit pmax)
                          (OParameter h) (OLit pmax))).
Qed.

(** ** The flattened list *)

Lemma fun_height_entry (f : FunctionInst) (k : string) (q : ParameterInst) :
  In (k, SPar q) (f_params f) -> par_height q <= fun_height f.
Proof.
  destruct f as [fn psr ps ds fs n kw]. simpl.
  induction ps as [|[k' [q'|c]] ps IH]; simpl; intros Hin.
  - contradiction.
  - destruct Hin as [[= -> ->]|Hin]; [lia|]. specialize (IH Hin). lia.
  - destruct Hin as [Heq|Hin]; [discriminate | auto].
Qed.

Lemma par_height_prior (p : ParameterInst) :
  par_height p = S (fun_height (par_prior p)).
Proof. destruct p; reflexivity. Qed.

Lemma In_Function_params (f : FunctionInst) (s : SubParam) :
  In s (Function_params f) <->
  exists k q, In (k, SPar q) (f_params f) /\ In s (Parameter_params q).
Proof.
  rewrite Function_params_unfold. unfold Dict.values.
  induction (f_params f) as [|[k [q|c]] ps IH]; simpl.
  - split; [contradiction | intros (k & q & [] & _)].
  - rewrite List.in_app_iff, IH. split.
    + intros [Hin|(k' & q' & Hin & Hs)].
      * exists k, q. auto.
      * exists k', q'. auto.
    + intros (k' & q' & [[= -> ->]|Hin] & Hs); [now left|].
      right. exists k', q'. auto.
  - rewrite IH. split.
    + intros (k' & q' & Hin & Hs). exists k', q'. auto.
    + intros (k' & q' & [Heq|Hin] & Hs); [discriminate|].
      exists k', q'. auto.
Qed.

Lemma In_Parameter_params (p : ParameterInst) (s : SubParam) :
  In s (Parameter_params p) <->
  s = SPar p \/ In s (Function_params (par_prior p)).
Proof.
  rewrite Parameter_params_unfold. simpl. rewrite List.filter_In.
  split.
  - intros [Heq|[Hin _]]; [now left | now right].
  - intros [Heq|Hin]; [now left|]. right. split; [assumption|].
    pose proof (Function_params_no_constant (par_prior p)) as Hpar.
    rewrite List.Forall_forall in Hpar. specialize (Hpar s Hin).
    unfold is_parameter in Hpar. now rewrite Hpar.
Qed.

(** X8. The flattened list of a parameter is closed: with a parameter it
    holds everything of that parameter's own flattened list, so every
    hyperparameter at any depth is listed. *)
Theorem params_closed (p q : ParameterInst) :
  In (SPar q) (Parameter_params p) ->
  incl (Parameter_params q) (Parameter_params p).
Proof.
  remember (par_height p) as n eqn:Hn.
  assert (Hle : par_height p <= n) by lia. clear Hn.
  revert p q Hle. induction n as [|n IH]; intros p q Hle Hq.
  - rewrite par_height_prior in Hle. lia.
  - apply In_Parameter_params in Hq. destruct Hq as [[= ->]|Hq].
    + apply List.incl_refl.
    + apply In_Function_params in Hq. destruct Hq as (k & e & He & Hq).
      assert (Hheight : par_height e <= n).
      { pose proof (fun_height_entry _ _ _ He) as Hent.
        rewrite par_height_prior in Hle. lia. }
      intros s Hs. apply In_Parameter_params. right.
      apply In_Function_params. exists k, e. split; [assumption|].
      exact (IH e q Hheight Hq s Hs).
Qed.

(** ** What the sampling returns *)

Lemma In_involved (parlist : list SubParam) (q : SubParam) :
  In q (involved parlist) <->
  exists par, In par parlist /\ In q (entry_params par).
Proof.
  unfold involved. rewrite List.in_concat. split.
  - intros (l & Hl & Hq). apply List.in_map_iff in Hl.
    destruct Hl as (par & <- & Hpar). eauto.
  - intros (par & Hpar & Hq). exists (entry_params par).
    split; [now apply List.in_map | assumption].
Qed.

Lemma sample_at_only (d : nat) :
  forall (parlist : list SubParam) (w : World) (m : gmap string PyObj)
         (w' : World),
    sample_at d parlist w = (Ok m, w') ->
    forall k, is_Some (m !! k) ->
              exists q, In q (involved parlist) /\ sub_name q = k.
Proof.
  induction d as [|d IHd]; intros parlist w m w' Hrun; [discriminate|].
  rewrite sample_at_unfold in Hrun.
  assert (Hloop : forall l parvalues w m w',
             sample_loop d l parvalues w = (Ok m, w') ->
             forall k, is_Some (m !! k) ->
                       is_Some (parvalues !! k) \/
                       exists q, In q (involved l) /\ sub_name q = k).
  { clear parlist w m w' Hrun.
    induction l as [|par l IHl]; intros parvalues w m w' Hrun k Hk.
    - injection Hrun as <- <-. now left.
    - simpl in Hrun. rewrite object_in_false in Hrun. simpl in Hrun.
      destruct par as [p|c]; [|discriminate].
      unfold bind in Hrun.
      destruct (sample_at d (tail (Parameter_params p)) w)
        as [[hyper|e] w1] eqn:Hhyper; [|discriminate].
      destruct (Parameter_sample p (Some (hyper ∪ parvalues)) ∅ w1)
        as [[v|e] w2]; [|discriminate].
      destruct (IHl _ _ _ _ Hrun k Hk) as [Hhere|(q & Hq & Hname)].
      + destruct (decide (par_name p = k)) as [<-|Hne].
        * right. exists (SPar p). split; [|reflexivity].
          apply In_involved. exists (SPar p). split; [now left|].
          apply Parameter_params_head.
        * rewrite lookup_insert_ne in Hhere by assumption.
          destruct (hyper !! k) as [z|] eqn:Hz.
          -- right.
             destruct (IHd _ _ _ _ Hhyper k ltac:(rewrite Hz; eauto))
               as (q & Hq & Hname).
             exists q. split; [|assumption].
             apply In_involved in Hq. destruct Hq as (e & He & Hq).
             apply In_involved. exists (SPar p). split; [now left|].
             destruct (tail_params_are_parameters _ _ He) as [e' ->].
             simpl in Hq |- *.
             assert (Hin : In (SPar e') (Parameter_params p)).
             { rewrite Parameter_params_unfold. right.
               rewrite Parameter_params_unfold in He. exact He. }
             exact (params_closed p e' Hin q Hq).
          -- left. destruct Hhere as [y Hy].
             apply lookup_union_Some_raw in Hy.
             destruct Hy as [Hy|[_ Hy]]; [congruence | eauto].
      + right. exists q. split; [|assumption].
        apply In_involved in Hq. destruct Hq as (e & He & Hq).
        apply In_involved. exists e. split; [now right | assumption]. }
  intros k Hk. destruct (Hloop _ _ _ _ _ Hrun k Hk) as [Hempty|Hq].
  - rewrite lookup_empty in Hempty. destruct Hempty as [y Hy]. discriminate.
  - exact Hq.
Qed.

(** X9. Whenever [sample] returns, the keys of the mapping are the names
    of the parameters involved, the listed ones and all of their flattened
    lists: each of them has a value, and there is no other key. *)
Theorem sample_keys (parlist : ParameterInst + list SubParam) (w : World)
    (m : gmap string PyObj) (w' : World) :
  sample parlist w = (Ok m, w') ->
  forall k,
    is_Some (m !! k) <->
    exists q, In q (involved match parlist with
                             | inl par => [SPar par]
                             | inr l => l
                             end) /\ sub_name q = k.
Proof.
  unfold sample. intros Hrun k. split.
  - now apply (sample_at_only _ _ _ _ _ Hrun).
  - intros (q & Hq & <-). apply In_involved in Hq.
    destruct Hq as (par & Hpar & Hq).
    exact (sample_at_covers _ _ _ _ _ Hrun par q Hpar Hq).
Qed.

(** ** The maps of an instance *)

Lemma Dict_set_In_inv {V} (k k0 : string) (v v0 : V) (d : list (string * V)) :
  In (k, v) (Dict.set k0 v0 d) -> (k, v) = (k0, v0) \/ In (k, v) d.
Proof.
  induction d as [|[k' v'] d IH]; simpl.
  - intros [Heq|[]]. now left.
  - destruct (String.eqb k0 k'); simpl; intros [Heq|Hin]; auto.
    destruct (IH Hin); auto.
Qed.

Lemma Dict_update_In_inv {V} (kv : string * V) (other d : list (string * V)) :
  In kv (Dict.update d other) -> In kv d \/ In kv other.
Proof.
  unfold Dict.update. revert d.
  induction other as [|[k' v'] other IH]; intros d; simpl; [auto|].
  intros Hin. destruct (IH _ Hin) as [Hset|Hother]; [|auto].
  destruct kv as [k v]. apply Dict_set_In_inv in Hset.
  destruct Hset as [Heq|Hd]; auto.
Qed.

Section Provenance.
Variables (name fname : string) (psr : lit) (slots_given : list (string * PyObj)).

Lemma classify_from_slots (st : slots) (slot : string * PyObj) :
  In slot slots_given -> from_slots name fname psr slots_given st ->
  from_slots name fname psr slots_given (classify name fname psr st slot).
Proof.
  intros Hslot (Hd & Hf & Hp). destruct slot as [kw arg].
  assert (Hpar : forall s, made_parameter name fname (kw, arg) s ->
            from_slots name fname psr slots_given (set_param kw s st)).
  { intros s Hmade. split; [exact Hd|]. split; [exact Hf|].
    intros k s' Hin. simpl in Hin. apply Dict_set_In_inv in Hin.
    destruct Hin as [[= -> ->]|Hin]; [left; eauto | auto]. }
  assert (Hfun : forall g, made_function name fname psr (kw, arg) g ->
            from_slots name fname psr slots_given (set_func kw g st)).
  { intros g Hmade. split; [exact Hd|]. split.
    - intros k g' Hin. simpl in Hin. apply Dict_set_In_inv in Hin.
      destruct Hin as [[= -> ->]|Hin]; eauto.
    - intros k s Hin. simpl in Hin. apply Dict_update_In_inv in Hin.
      destruct Hin as [Hin|Hin]; [auto|]. right. exists kw, arg, g. auto. }
  unfold classify. simpl.
  destruct arg; try (apply Hpar; reflexivity); try (apply Hfun; reflexivity).
  split; [|split; [exact Hf | exact Hp]].
  intros k v Hin. simpl in Hin. apply Dict_set_In_inv in Hin.
  destruct Hin as [[= -> ->]|Hin]; [split; [assumption | reflexivity] | auto].
Qed.

Lemma fold_from_slots (l : list (string * PyObj)) (st : slots) :
  (forall slot, In slot l -> In slot slots_given) ->
  from_slots name fname psr slots_given st ->
  from_slots name fname psr slots_given
    (fold_left (classify name fname psr) l st).
Proof.
  revert st. induction l as [|slot l IH]; intros st Hsub Hst; simpl.
  - assumption.
  - apply IH; [intros s Hs; apply Hsub; now right|].
    apply classify_from_slots; [apply Hsub; now left | assumption].
Qed.

End Provenance.

(** X10. Nothing enters the maps of a Function instance but through its
    slots.  [_defaults] holds slots bound to plain values, as they were
    given; every sub-function is what its slot gives, the instance itself
    or the class instantiated with the [psr] of the node; every
    sub-parameter is what its slot gives, or was merged from the
    sub-parameters of one of the sub-functions. *)
Theorem instance_maps_come_from_slots (fn : Callable) (fname : string)
    (func_kwargs : list (string * PyObj)) (name : string) (psr : lit) :
  let inst := Function_init (Function fn fname func_kwargs) name psr in
  (forall k v, In (k, v) (f_defaults inst) ->
               In (k, v) func_kwargs /\ is_graph_object v = false) /\
  (forall k g, In (k, g) (f_funcs inst) ->
               exists arg, In (k, arg) func_kwargs /\
                           made_function name fname psr (k, arg) g) /\
  (forall k s, In (k, s) (f_params inst) ->
               (exists arg, In (k, arg) func_kwargs /\
                            made_parameter name fname (k, arg) s) \/
               (exists k' arg g,
                   In (k', arg) func_kwargs /\
                   made_function name fname psr (k', arg) g /\
                   In (k, s) (f_params g))).
Proof.
  intros inst. subst inst. unfold Function. rewrite Function_init_unfold.
  cbv zeta. simpl f_defaults. simpl f_funcs. simpl f_params.
  apply (fold_from_slots name fname psr func_kwargs func_kwargs);
    [auto|].
  split; [|split]; intros k x [].
Qed.

Lemma classify_defaults_other (name fname : string) (psr : lit) (st : slots)
    (slot : string * PyObj) (kw : string) :
  kw <> fst slot ->
  Dict.get kw (s_defaults (classify name fname psr st slot))
  = Dict.get kw (s_defaults st).
Proof.
  intros Hne. destruct slot as [k arg]. simpl in Hne.
  destruct arg; simpl; try reflexivity. now apply Dict_get_set_ne.
Qed.

Lemma run_defaults_other (name fname : string) (psr : lit)
    (l : list (string * PyObj)) (st : slots) (kw : string) :
  ~ In kw (Dict.keys l) ->
  Dict.get kw (s_defaults (fold_left (classify name fname psr) l st))
  = Dict.get kw (s_defaults st).
Proof.
  revert st. induction l as [|slot l IH]; intros st Hnotin; simpl.
  - reflexivity.
  - simpl in Hnotin. rewrite IH by tauto.
    apply classify_defaults_other. intros ->. tauto.
Qed.

(** X11. A slot bound to an instance, or to a plain value, keeps what it
    was given, whatever the name and the [psr] the Function is
    instantiated with: a Parameter or Constant instance is the
    sub-parameter under its key, a Function instance the sub-function, a
    plain value the default.  So one instance given to several Functions
    is shared by them, under the name it already has.  The keys are
    distinct and, for a sub-parameter, no sub-function of the instance
    merges an entry under the same key. *)
Theorem instances_stored_as_given (fn : Callable) (fname : string)
    (func_kwargs : list (string * PyObj)) (name : string) (psr : lit)
    (kw : string) (arg : PyObj) :
  let inst := Function_init (Function fn fname func_kwargs) name psr in
  List.NoDup (Dict.keys func_kwargs) ->
  In (kw, arg) func_kwargs ->
  match arg with
  | OParameter p =>
      (forall k g, In (k, g) (f_funcs inst) ->
                   Dict.get kw (f_params g) = None) ->
      Dict.get kw (f_params inst) = Some (SPar p)
  | OConstant c =>
      (forall k g, In (k, g) (f_funcs inst) ->
                   Dict.get kw (f_params g) = None) ->
      Dict.get kw (f_params inst) = Some (SConst c)
  | OFunction g => Dict.get kw (f_funcs inst) = Some g
  | OLit l => Dict.get kw (f_defaults inst) = Some (OLit l)
  | _ => True
  end.
Proof.
  intros inst Hnd Hin.
  destruct (List.in_split _ _ Hin) as (pre & post & Hsplit).
  assert (Hpost : List.NoDup (Dict.keys post) /\ ~ In kw (Dict.keys post)).
  { subst func_kwargs. unfold Dict.keys in Hnd. rewrite List.map_app in Hnd.
    apply List.NoDup_app_remove_l in Hnd. simpl in Hnd.
    apply List.NoDup_cons_iff in Hnd. tauto. }
  destruct Hpost as [Hndpost Hnotin].
  subst inst. unfold Function in *. rewrite Function_init_unfold in *.
  cbv zeta in *. simpl f_params in *. simpl f_funcs in *.
  simpl f_defaults in *.
  rewrite Hsplit in *. rewrite List.fold_left_app in *.
  simpl fold_left in *.
  destruct arg; try exact I.
  - rewrite run_defaults_other by assumption. simpl. apply Dict_get_set_eq.
  - intros Hfree. rewrite run_params_other by assumption.
    simpl. apply Dict_get_set_eq.
  - intros Hfree. rewrite run_params_other by assumption.
    simpl. apply Dict_get_set_eq.
  - rewrite run_funcs_other by assumption. simpl. apply Dict_get_set_eq.
Qed.

(** ** Sampling what has no sampler *)

(** X12. A parameter declared without a sampler stops the sampling of
    any list it is in: once its hyperparameters are drawn, [sample] raises
    the error for the missing sampler and returns no mapping, the values
    drawn so far being lost. *)
Theorem sample_stops_without_sampler (d : nat) (p : ParameterInst)
    (rest : list SubParam) (w : World) (hyper : gmap string PyObj)
    (w1 : World) :
  nesting_limit = S d ->
  p_sampler (par_class p) = None ->
  sample_at d (tail (Parameter_params p)) w = (Ok hyper, w1) ->
  sample (inr (SPar p :: rest)) w
  = (Raise (AttributeError no_sampler_msg), w1) /\
  sample (inl p) w = (Raise (AttributeError no_sampler_msg), w1).
Proof.
  intros Hlimit Hnone Hhyper. unfold sample. rewrite Hlimit.
  rewrite !sample_at_unfold. simpl. rewrite object_in_false. simpl.
  unfold bind. rewrite Hhyper. unfold Parameter_sample. rewrite Hnone.
  split; reflexivity.
Qed.

(** ** What a call does not look at *)

Lemma forwarded_insert_undeclared (g : FunctionInst)
    (cur : gmap string PyObj) (k : string) (v : PyObj) :
  ~ In k (Dict.keys (f_func_kwargs g)) ->
  forwarded g (<[k := v]> cur) = forwarded g cur.
Proof.
  intros Hk. unfold forwarded. f_equal. apply map_filter_insert_not.
  intros y Hin. simpl in Hin. apply Hk. now apply list_elem_of_In.
Qed.

Lemma resolve_slot_insert (self : FunctionInst) (params : gmap string PyObj)
    (kw k : string) (v : PyObj) (cur : gmap string PyObj) (w : World) :
  k <> kw ->
  (forall k' g, In (k', g) (f_funcs self) ->
                ~ In k (Dict.keys (f_func_kwargs g))) ->
  resolve_slot (f_params self) (f_defaults self)
               (sub_evals params (f_funcs self)) params kw (<[k := v]> cur) w
  = match resolve_slot (f_params self) (f_defaults self)
            (sub_evals params (f_funcs self)) params kw cur w with
    | (Ok m, w') => (Ok (<[k := v]> m), w')
    | (Raise e, w') => (Raise e, w')
    end.
Proof.
  intros Hne Hsub. unfold resolve_slot. rewrite sub_evals_get.
  rewrite lookup_insert_ne by assumption. unfold ret, bind, lift.
  destruct (cur !! kw); [reflexivity|].
  destruct (Dict.get kw (f_params self)) as [par|].
  - destruct (params !! sub_name par);
      [now rewrite (insert_insert_ne _ kw k) by congruence|].
    destruct par as [q|c]; [reflexivity|].
    destruct (get_value recursion_limit c); [|reflexivity].
    now rewrite (insert_insert_ne _ kw k) by congruence.
  - destruct (Dict.get kw (f_defaults self));
      [now rewrite (insert_insert_ne _ kw k) by congruence|].
    destruct (Dict.get kw (f_funcs self)) as [g|] eqn:Hg; [|reflexivity].
    change (delete "params" (filter (fun kv => kv.1 ∈ Dict.keys (f_func_kwargs g))
                               (<[k := v]> cur)))
      with (forwarded g (<[k := v]> cur)).
    rewrite forwarded_insert_undeclared
      by (eapply Hsub; apply Dict_get_Some_In; eassumption).
    unfold forwarded.
    destruct (Function_call g [] params None _ w) as [[x|e] w'];
      [|reflexivity].
    now rewrite (insert_insert_ne _ kw k) by congruence.
Qed.

Lemma resolve_keys_insert (self : FunctionInst) (params : gmap string PyObj)
    (k : string) (v : PyObj) (kws : list string) :
  ~ In k kws ->
  (forall k' g, In (k', g) (f_funcs self) ->
                ~ In k (Dict.keys (f_func_kwargs g))) ->
  forall (cur : gmap string PyObj) (w : World),
    resolve_keys self params kws (<[k := v]> cur) w
    = match resolve_keys self params kws cur w with
      | (Ok m, w') => (Ok (<[k := v]> m), w')
      | (Raise e, w') => (Raise e, w')
      end.
Proof.
  intros Hk Hsub. unfold resolve_keys.
  induction kws as [|kw kws IH]; intros cur w; simpl; [reflexivity|].
  simpl in Hk. unfold bind.
  rewrite resolve_slot_insert by (try assumption; intros ->; tauto).
  destruct (resolve_slot _ _ _ params kw cur w) as [[m|e] w'];
    [|reflexivity].
  apply IH. tauto.
Qed.

Lemma clean_up_insert_dropped (func_kwargs : list (string * PyObj))
    (psr : lit) (k : string) (v : PyObj) (m : gmap string PyObj) :
  ~ In k (Dict.keys func_kwargs) -> ~ In k allow_list ->
  clean_up func_kwargs (pass_psr psr (<[k := v]> m))
  = clean_up func_kwargs (pass_psr psr m).
Proof.
  intros Hdecl Hallow.
  assert (Hpsr : k <> "psr").
  { intros ->. apply Hallow. unfold allow_list. now left. }
  assert (Hdrop : forall m', clean_up func_kwargs (<[k := v]> m')
                             = clean_up func_kwargs m').
  { intros m'. unfold clean_up. apply map_filter_insert_not.
    intros y [Hin|Hin]; simpl in Hin; apply list_elem_of_In in Hin; auto. }
  unfold pass_psr. rewrite lookup_insert_ne by assumption.
  destruct psr; try apply Hdrop;
    (destruct (m !! "psr"); [apply Hdrop|];
     rewrite (insert_insert_ne _ "psr" k) by congruence; apply Hdrop).
Qed.

(** X13. [__call__] takes the keywords [params] and [func] out first and
    obeys them: they are the context and the callable of the call.  Any
    other keyword that is no slot of the Function, is not in the
    allow-list and is declared by none of its sub-functions changes
    nothing: the call returns what it returns without it. *)
Theorem undeclared_keyword_changes_nothing (self : FunctionInst)
    (args : list PyObj) (params : gmap string PyObj) (func : option Callable)
    (kwargs : gmap string PyObj) (k : string) (v : PyObj) (w : World) :
  k <> "params" -> k <> "func" ->
  ~ In k (Dict.keys (f_func_kwargs self)) ->
  ~ In k allow_list ->
  (forall k' g, In (k', g) (f_funcs self) ->
                ~ In k (Dict.keys (f_func_kwargs g))) ->
  Function_call self args params func (<[k := v]> kwargs) w
  = Function_call self args params func kwargs w.
Proof.
  intros _ _ Hdecl Hallow Hsub. rewrite !Function_call_unfold.
  unfold bind, resolved_kwargs.
  rewrite resolve_keys_insert by assumption.
  destruct (resolve_keys self params _ kwargs w) as [[m|e] w'];
    [|reflexivity].
  now rewrite clean_up_insert_dropped.
Qed.

Lemma resolve_loop_defaults (ps : list (string * SubParam))
    (ds ds' : list (string * PyObj)) (fs : list (string * sub_eval))
    (params : gmap string PyObj) (kws : list string) :
  (forall kw, In kw kws -> Dict.get kw ps = None ->
              Dict.get kw ds' = Dict.get kw ds) ->
  forall (cur : gmap string PyObj) (w : World),
    resolve_loop ps ds' fs params kws cur w
    = resolve_loop ps ds fs params kws cur w.
Proof.
  induction kws as [|kw kws IH]; intros Hsame cur w; simpl; [reflexivity|].
  assert (Hslot : resolve_slot ps ds' fs params kw cur w
                  = resolve_slot ps ds fs params kw cur w).
  { unfold resolve_slot. destruct (cur !! kw); [reflexivity|].
    destruct (Dict.get kw ps) eqn:Hps; [reflexivity|].
    now rewrite (Hsame kw (or_introl eq_refl) Hps). }
  unfold bind. rewrite Hslot.
  destruct (resolve_slot ps ds fs params kw cur w) as [[m|e] w'];
    [|reflexivity].
  apply IH. intros kw' Hin. apply Hsame. now right.
Qed.

Lemma Dict_get_not_In {V} (k : string) (d : list (string * V)) :
  ~ In k (Dict.keys d) -> Dict.get k d = None.
Proof.
  intros Hk. destruct (Dict.get k d) eqn:Hget; [|reflexivity].
  exfalso. apply Hk. apply Dict_mem_In. unfold Dict.mem. now rewrite Hget.
Qed.

Lemma add_kwarg_fields (self : FunctionInst) (extra : list (string * PyObj)) :
  f_func (add_kwarg self extra) = f_func self /\
  f_psr (add_kwarg self extra) = f_psr self /\
  f_params (add_kwarg self extra) = f_params self /\
  f_defaults (add_kwarg self extra) = Dict.update (f_defaults self) extra /\
  f_funcs (add_kwarg self extra) = f_funcs self /\
  f_func_kwargs (add_kwarg self extra) = f_func_kwargs self.
Proof. destruct self. repeat split. Qed.

(** X14. [add_kwarg] reaches the calls only through the slots of the
    Function that are no sub-parameters.  Keywords that are not slots, or
    are slots of the sub-parameter map, change no call.  A keyword that is
    a slot outside the sub-parameter map becomes the value of the slot in
    every later call that does not override it, whatever the slot was
    bound to. *)
Theorem add_kwarg_reach (self : FunctionInst)
    (extra : list (string * PyObj)) (params : gmap string PyObj)
    (kwargs : gmap string PyObj) (w : World) :
  ((forall k, In k (Dict.keys extra) ->
              ~ In k (Dict.keys (f_func_kwargs self)) \/
              Dict.get k (f_params self) <> None) ->
   forall args func,
     Function_call (add_kwarg self extra) args params func kwargs w
     = Function_call self args params func kwargs w) /\
  (forall k v final w1,
      extra = [(k, v)] ->
      In k (Dict.keys (f_func_kwargs self)) ->
      Dict.get k (f_params self) = None ->
      kwargs !! k = None ->
      resolved_kwargs (add_kwarg self extra) params kwargs w = (Ok final, w1) ->
      final !! k = Some v).
Proof.
  destruct (add_kwarg_fields self extra)
    as (Hfn & Hpsr & Hps & Hds & Hfs & Hkw).
  split.
  - intros Hout args func. rewrite !Function_call_unfold.
    unfold resolved_kwargs, resolve_keys, chosen_func.
    rewrite Hfn, Hpsr, Hps, Hds, Hfs, Hkw.
    unfold bind.
    rewrite (resolve_loop_defaults _ (f_defaults self)); [reflexivity|].
    intros kw Hin Hps'. apply Dict_get_update_None.
    apply Dict_get_not_In. intros Hextra.
    destruct (Hout kw Hextra) as [Hno|Hno]; [now apply Hno | now apply Hno].
  - intros k v final w1 -> Hin Hps' Hkwargs Hres.
    unfold resolved_kwargs in Hres.
    destruct (resolve_keys_slots _ _ _ _ _ _ _ Hres) as (_ & _ & Hslots).
    rewrite Hkw in Hslots. specialize (Hslots k Hin).
    unfold slot_resolved_in in Hslots.
    rewrite Hkwargs, Hps, Hps', Hds in Hslots.
    unfold Dict.update in Hslots. simpl in Hslots.
    now rewrite Dict_get_set_eq in Hslots.
Qed.

(** ** Where a call reads the context *)

Lemma reads_sub_function (f g : FunctionInst) (k : string) :
  In (k, g) (f_funcs f) -> incl (reads g) (reads f) /\ nesting g < nesting f.
Proof.
  destruct f as [fn psr ps ds fs n kw]. simpl.
  intros Hin. split.
  - intros x Hx. apply List.in_or_app. right.
    induction fs as [|[k' g'] fs IH]; [contradiction|].
    apply List.in_or_app. destruct Hin as [[= -> ->]|Hin]; [now left|].
    right. now apply IH.
  - induction fs as [|[k' g'] fs IH]; [contradiction|].
    destruct Hin as [[= -> ->]|Hin]; [lia|]. specialize (IH Hin). lia.
Qed.

Lemma reads_sub_parameter (f : FunctionInst) (k : string) (s : SubParam) :
  In (k, s) (f_params f) -> In (sub_name s) (reads f).
Proof.
  destruct f as [fn psr ps ds fs n kw]. simpl. intros Hin.
  apply List.in_or_app. left.
  change (sub_name s) with ((fun entry => sub_name (snd entry)) (k, s)).
  now apply List.in_map.
Qed.

Lemma Function_call_agree (n : nat) :
  forall (self : FunctionInst), nesting self <= n ->
  forall (c1 c2 : gmap string PyObj), agree_on (reads self) c1 c2 ->
  forall args func kwargs w,
    Function_call self args c1 func kwargs w
    = Function_call self args c2 func kwargs w.
Proof.
  induction n as [|n IH]; intros self Hn c1 c2 Hagree args func kwargs w.
  { destruct self. simpl in Hn. lia. }
  rewrite !Function_call_unfold. unfold bind, resolved_kwargs, resolve_keys.
  assert (Hloop : forall kws cur w0,
             resolve_loop (f_params self) (f_defaults self)
               (sub_evals c1 (f_funcs self)) c1 kws cur w0
             = resolve_loop (f_params self) (f_defaults self)
                 (sub_evals c2 (f_funcs self)) c2 kws cur w0).
  { induction kws as [|kw kws IHk]; intros cur w0; simpl; [reflexivity|].
    assert (Hslot : resolve_slot (f_params self) (f_defaults self)
                      (sub_evals c1 (f_funcs self)) c1 kw cur w0
                    = resolve_slot (f_params self) (f_defaults self)
                        (sub_evals c2 (f_funcs self)) c2 kw cur w0).
    { unfold resolve_slot. rewrite !sub_evals_get.
      destruct (cur !! kw); [reflexivity|].
      destruct (Dict.get kw (f_params self)) as [par|] eqn:Hpar.
      - rewrite (Hagree (sub_name par))
          by (eapply reads_sub_parameter, Dict_get_Some_In; eassumption).
        reflexivity.
      - destruct (Dict.get kw (f_defaults self)); [reflexivity|].
        destruct (Dict.get kw (f_funcs self)) as [g|] eqn:Hg; [|reflexivity].
        apply Dict_get_Some_In in Hg.
        destruct (reads_sub_function _ _ _ Hg) as [Hincl Hless].
        unfold bind.
        rewrite (IH g ltac:(lia) c1 c2
                   (fun x Hx => Hagree x (Hincl x Hx))).
        reflexivity. }
    unfold bind. rewrite Hslot.
    destruct (resolve_slot _ _ _ c2 kw cur w0) as [[m|e] w'];
      [apply IHk | reflexivity]. }
  now rewrite Hloop.
Qed.

(** X15. A call reads the context only under the names of the
    sub-parameters of the Function and of its sub-functions: two contexts
    that hold the same under these names give the same call.  So do the
    densities and the sampler of a parameter for contexts that agree, in
    addition, under the name of the parameter. *)
Theorem context_read_at_names :
  (forall (self : FunctionInst) (c1 c2 : gmap string PyObj),
      agree_on (reads self) c1 c2 ->
      forall args func kwargs w,
        Function_call self args c1 func kwargs w
        = Function_call self args c2 func kwargs w) /\
  (forall (p : ParameterInst) (c1 c2 : gmap string PyObj),
      agree_on (par_name p :: reads (par_prior p)) c1 c2 ->
      forall value kwargs w,
        get_pdf p value (Some c1) kwargs w
        = get_pdf p value (Some c2) kwargs w /\
        get_logpdf p value (Some c1) kwargs w
        = get_logpdf p value (Some c2) kwargs w /\
        Parameter_sample p (Some c1) kwargs w
        = Parameter_sample p (Some c2) kwargs w).
Proof.
  assert (Hcall : forall (self : FunctionInst) (c1 c2 : gmap string PyObj),
             agree_on (reads self) c1 c2 ->
             forall args func kwargs w,
               Function_call self args c1 func kwargs w
               = Function_call self args c2 func kwargs w).
  { intros self c1 c2 Hagree. now apply (Function_call_agree (nesting self)). }
  split; [exact Hcall|].
  intros p c1 c2 Hagree value kwargs w.
  assert (Hprior : agree_on (reads (par_prior p)) c1 c2)
    by (intros n Hn; apply Hagree; now right).
  assert (Hvalue : resolve_value p value (Some c1)
                   = resolve_value p value (Some c2)).
  { unfold resolve_value. now rewrite (Hagree (par_name p) (or_introl eq_refl)). }
  unfold get_pdf, get_logpdf, Parameter_sample, prior_at, bind, lift,
    name_in_kwargs, params_or_empty.
  rewrite Hvalue.
  repeat split.
  - destruct (resolve_value p value (Some c2)); [|reflexivity].
    now rewrite (Hcall _ _ _ Hprior).
  - destruct (resolve_value p value (Some c2)); [|reflexivity].
    now rewrite (Hcall _ _ _ Hprior).
  - destruct (p_sampler (par_class p)); [|reflexivity].
    destruct (kwargs !! par_name p); [reflexivity|].
    destruct (String.eqb (par_name p) "params"); [reflexivity|].
    destruct (kwargs !! "size"); [reflexivity|].
    apply (Hcall _ _ _ Hprior).
Qed.

End MoreProperties.

(** * The model at work *)

Section Examples.
Local Existing Instance Toy.env.

Lemma instantiation_names_witness :
  exists p,
    Dict.get "a" (f_params (Function_init Ex.sig_class "sig" LNone))
    = Some (SPar p) /\ par_name p = "sig_a".
Proof.
  destruct (instantiation_names (PyFunc 1) ""
              [("a", OParameterClass (Uniform (Ex.num 0) (Ex.num 1) None))]
              "sig" LNone)
    as (_ & _ & Hentry).
  eexists. split.
  - apply (Hentry "a" (OParameterClass (Uniform (Ex.num 0) (Ex.num 1) None))).
    + repeat constructor. simpl. tauto.
    + left. reflexivity.
    + intros k g Hin. simpl in Hin. contradiction.
  - reflexivity.
Defined.

Lemma density_reduction_witness :
  exists t,
    get_pdf Ex.x (OLit (LVec [1 # 5; 1 # 2; 4 # 5])) None ∅ (Toy.drawn [])
    = (Ok (OLit (LNum t)), Toy.drawn []) /\ (t == 1)%Q.
Proof.
  destruct (density_reduction Ex.x (OLit (LVec [1 # 5; 1 # 2; 4 # 5]))
              (OLit (LVec [1 # 5; 1 # 2; 4 # 5])) None ∅ (Toy.drawn []) (Toy.drawn []) eq_refl)
    as [Hvec _].
  destruct (Hvec 3%nat [1; 1; 1]%Q eq_refl ltac:(vm_compute; reflexivity))
    as (s & t & _ & _ & Hpdf & Ht).
  exists t. split; [exact Hpdf | exact Ht].
Defined.

Lemma LinearExp_rejects_bad_bounds_witness :
  let p := Parameter_init (LinearExp (Ex.num 1) (Ex.num 0) None) "x" in
  (get_pdf p (Ex.num 0) None ∅ (Toy.drawn []) = (Raise (ValueError LinearExp_msg), Toy.drawn []) /\
   get_logpdf p (Ex.num 0) None ∅ (Toy.drawn []) = (Raise (ValueError LinearExp_msg), Toy.drawn [])) /\
  Parameter_sample p None ∅ (Toy.drawn []) = (Raise (ValueError LinearExp_msg), Toy.drawn []).
Proof.
  intros p.
  destruct (LinearExp_rejects_bad_bounds (LNum 1) (LNum 0) None "x"
              (Ex.num 0) (Ex.num 0) None ∅ (Toy.drawn []) eq_refl
              (fun i _ => lookup_empty i)) as [Hdensity Hsample].
  split; [exact (Hdensity eq_refl) | exact (Hsample eq_refl)].
Defined.

Lemma sample_overlooks_own_value_in_params_witness :
  Parameter_sample Ex.h (Some {["h" := Ex.num (1 # 2)]}) ∅ (Toy.drawn [])
  = (Ok (Ex.num (1 # 2)), Toy.drawn [(0, 1)]%Q).
Proof.
  rewrite (sample_overlooks_own_value_in_params Ex.h FUniformSampler
             {["h" := Ex.num (1 # 2)]} (Ex.num (1 # 2)) (Toy.drawn []) eq_refl
             ltac:(discriminate) ltac:(vm_compute; reflexivity)).
  vm_compute. reflexivity.
Defined.

(** C1 (what the code does where the specification says otherwise).  The
    test [par not in parvalues] looks for a Parameter among names and
    holds for every parameter and every mapping, so nothing is ever
    skipped.  The roots [a] and [b] share the hyperparameter [h].
    Sampling [[a; b]] draws four variates for three parameters: [h]
    (1/2), [a] from it (pmin = 1/2), then [h] again (1/4) and [b] from
    that; the mapping returned holds the second draw of [h] while [a] was
    drawn from the first.  Likewise a parameter listed twice is drawn
    twice, the second draw replacing the first. *)
Theorem sample_draws_shared_hyperparameter_twice :
  (forall par parvalues, object_in par parvalues = false) /\
  sample (inr [SPar Ex.a; SPar Ex.b]) (Toy.drawn [])
  = (Ok (<["a" := Ex.num 1]>
           (<["b" := Ex.num (4 # 5)]> {["h" := Ex.num (1 # 4)]})),
     Toy.drawn [(0, 1); (1 # 2, 3 # 2); (0, 1); (1 # 4, 11 # 4)]%Q) /\
  sample (inr [SPar Ex.h; SPar Ex.h]) (Toy.drawn [])
  = (Ok {["h" := Ex.num (1 # 3)]}, Toy.drawn [(0, 1); (0, 1)]%Q).
Proof.
  split; [exact object_in_false|].
  split; vm_compute; reflexivity.
Qed.

(** [outer] binds [a] to 1 and [g] to a sub-function that declares [a]
    with the default 2.  The call without overrides passes the resolved
    [a = 1] on to the sub-function, so [g] is 1; resolving the sub-function
    on the overrides it declares, of which there are none, would make it
    2. *)
Lemma sub_function_sees_resolved_slot :
  Function_call Ex.outer [] ∅ None ∅ (Toy.drawn [])
  = (Ok (Ex.num 1), Toy.drawn []) /\
  specified_call Ex.outer [] ∅ None ∅ (Toy.drawn [])
  = (Ok (Ex.num 2), Toy.drawn []) /\
  Function_call Ex.outer [] ∅ None ∅ (Toy.drawn [])
  <> specified_call Ex.outer [] ∅ None ∅ (Toy.drawn []).
Proof.
  assert (Hcode : Function_call Ex.outer [] ∅ None ∅ (Toy.drawn [])
                  = (Ok (Ex.num 1), Toy.drawn []))
    by (vm_compute; reflexivity).
  assert (Hspec : specified_call Ex.outer [] ∅ None ∅ (Toy.drawn [])
                   = (Ok (Ex.num 2), Toy.drawn []))
    by (vm_compute; reflexivity).
  repeat split; try assumption.
  rewrite Hcode, Hspec. discriminate.
Qed.

Lemma call_resolution_order_witness :
  Function_call Ex.outer [] ∅ None ∅ (Toy.drawn [])
  = run_callable (PyFunc 0) []
      (clean_up (f_func_kwargs Ex.outer) Ex.outer_resolved) (Toy.drawn []) /\
  slot_resolved Ex.outer ∅ ∅ (Toy.drawn []) Ex.outer_resolved "g".
Proof.
  assert (Hres : resolved_kwargs Ex.outer ∅ ∅ (Toy.drawn [])
                 = (Ok Ex.outer_resolved, Toy.drawn []))
    by (vm_compute; reflexivity).
  destruct (call_resolution_order Ex.outer [] ∅ None ∅ (Toy.drawn [])
              Ex.outer_resolved (Toy.drawn []) Hres)
    as (Hcall & _ & Hslots & _).
  split; [exact Hcall|].
  apply Hslots. right. left. reflexivity.
Defined.

(** [ident(Uniform(0, 1))]: the class is passed by position, every
    positional argument is there and there is no keyword, so [ident] is
    called and its result, the class itself, comes back; no Function class
    is made. *)
Lemma wrapper_calls_on_positional_class :
  is_graph_object (OParameterClass (Uniform (Ex.num 0) (Ex.num 1) None)) = true /\
  wrapper (PyFunc 2) [OParameterClass (Uniform (Ex.num 0) (Ex.num 1) None)] []
          (Toy.drawn [])
  = (Ok (OParameterClass (Uniform (Ex.num 0) (Ex.num 1) None)), Toy.drawn []) /\
  forall cls,
    wrapper (PyFunc 2) [OParameterClass (Uniform (Ex.num 0) (Ex.num 1) None)] []
            (Toy.drawn [])
    <> (Ok (OFunctionClass cls), Toy.drawn []).
Proof.
  split; [reflexivity|].
  assert (Hrun : wrapper (PyFunc 2)
                   [OParameterClass (Uniform (Ex.num 0) (Ex.num 1) None)] []
                   (Toy.drawn [])
                 = (Ok (OParameterClass (Uniform (Ex.num 0) (Ex.num 1) None)),
                    Toy.drawn []))
    by (vm_compute; reflexivity).
  split; [exact Hrun|]. intros cls. rewrite Hrun. discriminate.
Qed.

Lemma wrapper_computes_or_declares_witness :
  wrapper (PyFunc 2) [Ex.num 1] [] (Toy.drawn [])
  = run_callable (PyFunc 2) [Ex.num 1] ∅ (Toy.drawn []) /\
  wrapper (PyFunc 1) []
          [("a", OParameterClass (Uniform (Ex.num 0) (Ex.num 1) None))]
          (Toy.drawn [])
  = (Ok (OFunctionClass Ex.sig_class), Toy.drawn []).
Proof.
  split.
  - apply (wrapper_computes_or_declares (PyFunc 2) [Ex.num 1] [] (Toy.drawn [])).
    + intros fa Hfa. left. exact Hfa.
    + constructor.
  - destruct (wrapper_computes_or_declares (PyFunc 1) []
                [("a", OParameterClass (Uniform (Ex.num 0) (Ex.num 1) None))]
                (Toy.drawn [])) as [_ Hdeclares].
    destruct Hdeclares as [Hunnamed _].
    + right. constructor. reflexivity.
    + reflexivity.
    + apply Hunnamed. reflexivity.
Defined.

End Examples.

(** * The further properties at work *)

Section MoreExamples.
Local Existing Instance Toy.env.

Lemma literal_slots_call_witness :
  Function_call
    (Function_init (Function (PyFunc 1) "" [("a", Ex.num 2)]) "sig" LNone)
    [] ∅ None (<["a" := Ex.num 5]> ∅) (Toy.drawn [])
  = (Ok (Ex.num 5), Toy.drawn []).
Proof.
  etransitivity.
  - apply (literal_slots_call (PyFunc 1) "" [("a", Ex.num 2)] "sig" LNone
             [] ∅ None (<["a" := Ex.num 5]> ∅) (Toy.drawn [])).
    + repeat constructor.
    + repeat constructor. simpl. tauto.
  - vm_compute. reflexivity.
Defined.

Lemma declared_call_is_direct_call_witness :
  wrapper (PyFunc 2) [] [("x", Ex.num 1)] (Toy.drawn [])
  = Function_call
      (Function_init (Function (PyFunc 2) "" [("x", Ex.num 1)]) "sig" LNone)
      [] ∅ None ∅ (Toy.drawn []) /\
  wrapper (PyFunc 2) [] [] (Toy.drawn [])
  = (Ok (OFunctionClass (Function (PyFunc 2) "" [])), Toy.drawn []).
Proof.
  split.
  - destruct (declared_call_is_direct_call (PyFunc 2) [("x", Ex.num 1)] []
                "sig" ∅ (Toy.drawn []))
      as (_ & Hnow & _).
    + repeat constructor.
    + repeat constructor. simpl. tauto.
    + apply Hnow. intros fa Hfa. right. exact Hfa.
  - destruct (declared_call_is_direct_call (PyFunc 2) [] [] "sig" ∅
                (Toy.drawn []))
      as (_ & _ & Hlater).
    + constructor.
    + constructor.
    + apply Hlater; [|reflexivity|reflexivity].
      intros Hall. destruct (Hall "x" (or_introl eq_refl)) as [[]|[]].
Defined.

Lemma Uniform_asks_loc_scale_witness :
  prior_at Ex.h (Ex.num (1 # 2)) None ∅ (Toy.drawn [])
  = (Ok (Ex.num 1), Toy.drawn []) /\
  Parameter_sample Ex.h None ∅ (Toy.drawn [])
  = (Ok (Ex.num (1 # 2)), Toy.drawn [(0, 1)]%Q).
Proof.
  destruct (Uniform_asks_loc_scale (LNum 0) (LNum 1) None "h"
              (Ex.num (1 # 2)) None ∅ (Toy.drawn [])
              (fun i _ => lookup_empty i)) as [Hdensity Hdraw].
  split.
  - etransitivity; [exact Hdensity|]. vm_compute. reflexivity.
  - etransitivity; [exact (Hdraw eq_refl)|]. vm_compute. reflexivity.
Defined.

Lemma Normal_vector_mean_needs_size_witness :
  Parameter_sample
    (Parameter_init (Normal (OLit (LVec [0; 0]%Q)) (Ex.num 1) None) "n")
    None ∅ (Toy.drawn [])
  = (Raise (ValueError size_mismatch_msg), Toy.drawn []) /\
  Parameter_sample
    (Parameter_init (Normal (OLit (LVec [0; 0]%Q)) (Ex.num 1) (Some 2%nat)) "n")
    None ∅ (Toy.drawn [])
  = (Raise (LibraryError 2), Toy.drawn []).
Proof.
  split.
  - destruct (Normal_vector_mean_needs_size [0; 0]%Q (LNum 1) None "n" None
                (Toy.drawn []) eq_refl) as [Hbad _].
    apply Hbad. discriminate.
  - destruct (Normal_vector_mean_needs_size [0; 0]%Q (LNum 1) (Some 2%nat)
                "n" None (Toy.drawn []) eq_refl) as [_ Hgood].
    etransitivity; [exact (Hgood eq_refl)|]. vm_compute. reflexivity.
Defined.


Lemma value_taken_from_context_witness :
  get_pdf Ex.h (OLit LNone) (Some (<["h" := Ex.num (1 # 2)]> ∅)) ∅
          (Toy.drawn [])
  = get_pdf Ex.h (Ex.num (1 # 2)) (Some (<["h" := Ex.num (1 # 2)]> ∅)) ∅
            (Toy.drawn []) /\
  get_logpdf Ex.h (OLit LNone) (Some ∅) ∅ (Toy.drawn [])
  = (Raise (KeyError "h"), Toy.drawn []).
Proof.
  split.
  - destruct (value_taken_from_context Ex.h (<["h" := Ex.num (1 # 2)]> ∅) ∅
                (Toy.drawn [])) as [Hthere _].
    apply Hthere. vm_compute. reflexivity.
  - destruct (value_taken_from_context Ex.h ∅ ∅ (Toy.drawn []))
      as [_ Habsent].
    apply Habsent. vm_compute. reflexivity.
Defined.

Lemma hyperparameter_read_from_context_witness :
  prior_at Ex.a (Ex.num 1) (Some (<["h" := Ex.num (1 # 2)]> ∅)) ∅
           (Toy.drawn [])
  = UniformPrior (Ex.num 1) (Ex.num (1 # 2)) (Ex.num 2) (Toy.drawn []) /\
  prior_at Ex.a (Ex.num 1) (Some ∅) ∅ (Toy.drawn [])
  = (Raise (TypeError "missing required argument"), Toy.drawn []).
Proof.
  split.
  - destruct (hyperparameter_read_from_context Ex.h (LNum 2) None "a"
                (Ex.num 1) (<["h" := Ex.num (1 # 2)]> ∅) (Toy.drawn []))
      as [Hthere _].
    apply Hthere. vm_compute. reflexivity.
  - destruct (hyperparameter_read_from_context Ex.h (LNum 2) None "a"
                (Ex.num 1) ∅ (Toy.drawn []))
      as [_ Habsent].
    apply Habsent. vm_compute. reflexivity.
Defined.

Lemma params_closed_witness :
  incl (Parameter_params Ex.h) (Parameter_params Ex.a).
Proof.
  apply (params_closed Ex.a Ex.h). right. left. reflexivity.
Defined.

Lemma sample_keys_witness :
  is_Some ((<["a" := Ex.num 1]> (<["h" := Ex.num (1 # 2)]> ∅)
            : gmap string PyObj) !! "h") <->
  exists q, In q (involved [SPar Ex.a]) /\ sub_name q = "h".
Proof.
  apply (sample_keys (inr [SPar Ex.a]) (Toy.drawn [])
           (<["a" := Ex.num 1]> (<["h" := Ex.num (1 # 2)]> ∅))
           (Toy.drawn [(0, 1); (1 # 2, 3 # 2)]%Q)).
  vm_compute. reflexivity.
Defined.

Lemma instance_maps_come_from_slots_witness :
  exists arg,
    In ("g", arg)
       [("a", Ex.num 1);
        ("g", OFunctionClass (Function (PyFunc 1) "" [("a", Ex.num 2)]))] /\
    made_function "sig" "" LNone ("g", arg)
      (Function_init (Function (PyFunc 1) "" [("a", Ex.num 2)]) "sig_g" LNone).
Proof.
  destruct (instance_maps_come_from_slots (PyFunc 0) ""
              [("a", Ex.num 1);
               ("g", OFunctionClass (Function (PyFunc 1) "" [("a", Ex.num 2)]))]
              "sig" LNone) as (_ & Hfuncs & _).
  apply Hfuncs. left. reflexivity.
Defined.

Lemma instances_stored_as_given_witness :
  Dict.get "a"
    (f_params (Function_init
                 (Function (PyFunc 1) "" [("a", OParameter Ex.h)]) "sig" LNone))
  = Some (SPar Ex.h).
Proof.
  apply (instances_stored_as_given (PyFunc 1) "" [("a", OParameter Ex.h)]
           "sig" LNone "a" (OParameter Ex.h)).
  - repeat constructor. simpl. tauto.
  - left. reflexivity.
  - intros k g [].
Defined.

Lemma sample_stops_without_sampler_witness :
  sample (inr [SPar (Parameter_init
                       (UserParameter
                          (Function FUniformPrior ""
                             [("pmin", Ex.num 0); ("pmax", Ex.num 1)])
                          None None) "u");
               SPar Ex.h]) (Toy.drawn [])
  = (Raise (AttributeError no_sampler_msg), Toy.drawn []).
Proof.
  destruct (sample_stops_without_sampler 99
              (Parameter_init
                 (UserParameter
                    (Function FUniformPrior ""
                       [("pmin", Ex.num 0); ("pmax", Ex.num 1)])
                    None None) "u")
              [SPar Ex.h] (Toy.drawn []) ∅ (Toy.drawn []))
    as [Hlist _].
  - reflexivity.
  - reflexivity.
  - vm_compute. reflexivity.
  - exact Hlist.
Defined.

Lemma undeclared_keyword_changes_nothing_witness :
  Function_call Ex.outer [] ∅ None (<["zzz" := Ex.num 7]> ∅) (Toy.drawn [])
  = Function_call Ex.outer [] ∅ None ∅ (Toy.drawn []).
Proof.
  apply (undeclared_keyword_changes_nothing Ex.outer [] ∅ None ∅ "zzz"
           (Ex.num 7) (Toy.drawn [])).
  - discriminate.
  - discriminate.
  - intros [H|[H|[]]]; discriminate H.
  - intros [H|[H|[H|[]]]]; discriminate H.
  - intros k' g [Hin|[]].
    injection Hin as _ <-. intros [H|[]]. discriminate H.
Defined.

Lemma add_kwarg_reach_witness :
  Function_call (add_kwarg Ex.outer [("zzz", Ex.num 5)]) [] ∅ None ∅
                (Toy.drawn [])
  = Function_call Ex.outer [] ∅ None ∅ (Toy.drawn []) /\
  (<["g" := Ex.num 5]> (<["a" := Ex.num 5]> ∅) : gmap string PyObj) !! "a"
  = Some (Ex.num 5).
Proof.
  split.
  - destruct (add_kwarg_reach Ex.outer [("zzz", Ex.num 5)] ∅ ∅ (Toy.drawn []))
      as [Hsame _].
    apply Hsame. intros k [<-|[]]. left.
    intros [H|[H|[]]]; discriminate H.
  - destruct (add_kwarg_reach Ex.outer [("a", Ex.num 5)] ∅ ∅ (Toy.drawn []))
      as [_ Hset].
    apply (Hset "a" (Ex.num 5) _ (Toy.drawn []) eq_refl).
    + left. reflexivity.
    + reflexivity.
    + apply lookup_empty.
    + vm_compute. reflexivity.
Defined.

Lemma context_read_at_names_witness :
  get_pdf Ex.a (Ex.num 1) (Some (<["h" := Ex.num (1 # 2)]> ∅)) ∅
          (Toy.drawn [])
  = get_pdf Ex.a (Ex.num 1)
            (Some (<["zzz" := Ex.num 3]> (<["h" := Ex.num (1 # 2)]> ∅))) ∅
            (Toy.drawn []).
Proof.
  destruct context_read_at_names as [_ Hpar].
  apply (Hpar Ex.a (<["h" := Ex.num (1 # 2)]> ∅)
           (<["zzz" := Ex.num 3]> (<["h" := Ex.num (1 # 2)]> ∅))).
  intros n [<-|[<-|[]]]; vm_compute; reflexivity.
Defined.

End MoreExamples.
